(** * Debate coordinator: classifier, recommendation extraction and
      incident memory of [src/server.ts], embedded and verified. *)

From Stdlib Require Import ZArith QArith Ascii String List Lia Bool.
From stdpp Require Import base option list strings gmap.

Local Open Scope list_scope.

(** ** JavaScript strings

    A string is a sequence of UTF-16 code units.  The model keeps the
    code units below 256 (Basic Latin and Latin-1), one [ascii] each;
    every literal of the source lies in the Basic Latin part. *)

Module JsString.

Abbreviation t := (list ascii).

Definition str (s : string) : t := list_ascii_of_string s.

Definition code (c : ascii) : N := N_of_ascii c.

Definition between (lo hi : N) (c : ascii) : bool :=
  ((lo <=? code c) && (code c <=? hi))%N.

Definition shift (d : Z) (c : ascii) : ascii :=
  ascii_of_N (Z.to_N (Z.of_N (code c) + d)).

(** [String.prototype.toLowerCase] on one code unit: A-Z, and the
    Latin-1 capitals U+00C0..U+00DE without the multiplication sign. *)
Definition lower (c : ascii) : ascii :=
  if between 65 90 c then shift 32 c
  else if between 192 222 c && negb (code c =? 215)%N then shift 32 c
  else c.

(** [Canonicalize] of a case-insensitive pattern without the [u] flag:
    the upper-case code unit, as far as it stays in the modelled range
    (the capitals of U+00FF and U+00B5 lie beyond it, U+00DF has none). *)
Definition canonicalize (c : ascii) : ascii :=
  if between 97 122 c then shift (-32) c
  else if between 224 254 c && negb (code c =? 247)%N then shift (-32) c
  else c.

(** White space and line terminators: the class [\s], also stripped by
    [trim]. *)
Definition isSpace (c : ascii) : bool :=
  between 9 13 c || (code c =? 32)%N || (code c =? 160)%N.

(** The class [\d]. *)
Definition isDigit (c : ascii) : bool := between 48 57 c.

(** The pattern [.] without the [s] flag: no line terminator. *)
Definition isDot (c : ascii) : bool :=
  negb ((code c =? 10)%N || (code c =? 13)%N).

Definition toLowerCase (s : t) : t := map lower s.

(** [startsWith]: [needle] is a prefix of [hay]. *)
Fixpoint startsWith (needle hay : t) : bool :=
  match needle, hay with
  | [], _ => true
  | _ :: _, [] => false
  | a :: n', b :: h' => Ascii.eqb a b && startsWith n' h'
  end.

(** [hay.includes(needle)]. *)
Fixpoint includes (needle hay : t) : bool :=
  startsWith needle hay ||
  match hay with
  | [] => false
  | _ :: h' => includes needle h'
  end.

(** [hay.indexOf(needle)], [None] for -1. *)
Fixpoint indexOf (needle hay : t) : option nat :=
  if startsWith needle hay then Some 0
  else match hay with
       | [] => None
       | _ :: h' => S <$> indexOf needle h'
       end.

Fixpoint trimStart (s : t) : t :=
  match s with
  | c :: s' => if isSpace c then trimStart s' else s
  | [] => []
  end.

Definition trimEnd (s : t) : t := reverse (trimStart (reverse s)).

Definition trim (s : t) : t := trimEnd (trimStart s).

(** [s.split(/-/)]: cut at every hyphen; the pieces keep their order and
    an empty input gives one empty piece. *)
Fixpoint splitHyphen (s : t) : list t :=
  match s with
  | [] => [[]]
  | c :: s' =>
      if Ascii.eqb c "-" then [] :: splitHyphen s'
      else match splitHyphen s' with
           | p :: ps => (c :: p) :: ps
           | [] => [[c]]
           end
  end.

(** Truthiness of a string: non-empty. *)
Definition truthy (s : t) : bool :=
  match s with [] => false | _ :: _ => true end.

End JsString.

Import JsString.

(** ** Numbers read by [parseFloat]

    A number is a double: not-a-number, an infinity, the negative zero,
    or a finite value, kept as the exact fraction the double stands for.
    [parseFloat] strips leading white space, reads the longest prefix
    that is a decimal literal (sign, [Infinity] or digits with a
    fraction and an exponent) and rounds its value to the nearest
    double, ties to even; [NaN] when there is no such prefix. *)

Inductive number :=
| NaN
| Num (q : Q)
| NegativeZero
| Infinity (negative : bool).

Fixpoint takeDigits (s : JsString.t) : JsString.t * JsString.t :=
  match s with
  | c :: s' =>
      if isDigit c then let '(d, r) := takeDigits s' in (c :: d, r)
      else ([], s)
  | [] => ([], [])
  end.

Definition digitsValue (ds : JsString.t) : N :=
  fold_left (fun acc c => (acc * 10 + (code c - 48))%N) ds 0%N.

(** A leading sign: whether it is a minus, and what follows it. *)
Definition takeSign (s : JsString.t) : bool * JsString.t :=
  match s with
  | c :: s' =>
      if Ascii.eqb c "-" then (true, s')
      else if Ascii.eqb c "+" then (false, s') else (false, s)
  | [] => (false, s)
  end.

(** The exponent part [e], sign, digits at the head of [s]; 0 when it
    is not there or has no digit. *)
Definition exponentPart (s : JsString.t) : Z :=
  match s with
  | c :: s' =>
      if Ascii.eqb c "e" || Ascii.eqb c "E" then
        let '(neg, s'') := takeSign s' in
        match fst (takeDigits s'') with
        | [] => 0%Z
        | ds => let x := Z.of_N (digitsValue ds) in if neg then (- x)%Z else x
        end
      else 0%Z
  | [] => 0%Z
  end.

(** [2^b <= n / d], for positive [n] and [d]. *)
Definition atLeastPow2 (n d b : Z) : bool :=
  if (0 <=? b)%Z then (d * 2 ^ b <=? n)%Z else (d <=? n * 2 ^ (- b))%Z.

(** The double nearest to [n / d], ties to even: 53 bits of precision,
    the last place never below [2^-1074], overflow at [2^1024]. *)
Definition binary64 (n : N) (d : positive) : number :=
  if (n =? 0)%N then Num 0
  else
    let n := Z.of_N n in
    let d := Z.pos d in
    let b0 := (Z.log2 n - Z.log2 d)%Z in
    let b := if atLeastPow2 n d b0 then b0 else (b0 - 1)%Z in
    let e := Z.max (b - 52) (-1074) in
    let '(num, den) :=
      if (0 <=? e)%Z then (n, (d * 2 ^ e)%Z) else ((n * 2 ^ (- e))%Z, d) in
    let floor := (num / den)%Z in
    let rest := (num mod den)%Z in
    let m :=
      if (2 * rest <? den)%Z then floor
      else if (den <? 2 * rest)%Z then (floor + 1)%Z
      else if Z.even floor then floor else (floor + 1)%Z in
    if (0 <=? e)%Z then
      if (2 ^ 1024 <=? m * 2 ^ e)%Z then Infinity false
      else Num (Qred ((m * 2 ^ e)%Z # 1))
    else Num (Qred (m # Z.to_pos (2 ^ (- e)))).

Definition negate (x : number) : number :=
  match x with
  | NaN => NaN
  | Num q => if Qeq_bool q 0 then NegativeZero else Num (Qred (Qopp q))
  | NegativeZero => Num 0
  | Infinity negative => Infinity (negb negative)
  end.

Definition parseFloat (input : JsString.t) : number :=
  let '(neg, s) := takeSign (trimStart input) in
  let signed (x : number) := if neg then negate x else x in
  if startsWith (str "Infinity") s then signed (Infinity false)
  else
    let '(ip, rest) := takeDigits s in
    let '(fp, rest) :=
      match rest with
      | c :: rest' => if Ascii.eqb c "." then takeDigits rest' else ([], rest)
      | [] => ([], rest)
      end in
    match ip ++ fp with
    | [] => NaN
    | ds =>
        let scale := (exponentPart rest - Z.of_nat (length fp))%Z in
        signed
          (if (0 <=? scale)%Z
           then binary64 (digitsValue ds * Z.to_N (10 ^ scale)) 1
           else binary64 (digitsValue ds) (Z.to_pos (10 ^ (- scale))))
    end.

(** ** Regular expressions

    The four patterns of the source use literals, character classes,
    sequence, alternation, one capture group, [$] and repetition of a
    single class, greedy or lazy.  [exec] is the backtracking matcher of
    the language: alternatives in order, greedy repetition longest first,
    lazy repetition shortest first, leftmost start position. *)

Module Regex.

Inductive t :=
| Eps
| Chr (p : ascii -> bool)
| Seq (r1 r2 : t)
| Alt (r1 r2 : t)
| Star (greedy : bool) (p : ascii -> bool)
| Group (r : t)
| Eos.

(** Group 1 of the match in progress; [None] is [undefined]. *)
Abbreviation captures := (option JsString.t).

Abbreviation cont := (JsString.t -> captures -> option captures).

Fixpoint star (greedy : bool) (p : ascii -> bool) (k : cont)
    (s : JsString.t) (c : captures) : option captures :=
  if greedy then
    match s with
    | a :: s' =>
        if p a then
          match star greedy p k s' c with
          | Some x => Some x
          | None => k s c
          end
        else k s c
    | [] => k s c
    end
  else
    match k s c with
    | Some x => Some x
    | None =>
        match s with
        | a :: s' => if p a then star greedy p k s' c else None
        | [] => None
        end
    end.

Fixpoint run (r : t) (k : cont) (s : JsString.t) (c : captures)
    : option captures :=
  match r with
  | Eps => k s c
  | Chr p =>
      match s with
      | a :: s' => if p a then k s' c else None
      | [] => None
      end
  | Seq r1 r2 => run r1 (run r2 k) s c
  | Alt r1 r2 =>
      match run r1 k s c with
      | Some x => Some x
      | None => run r2 k s c
      end
  | Star g p => star g p k s c
  | Group r' =>
      run r' (fun s' _ => k s' (Some (take (length s - length s') s))) s c
  | Eos =>
      match s with
      | [] => k s c
      | _ :: _ => None
      end
  end.

Definition accept : cont := fun _ c => Some c.

(** A match anchored at the start of [s]. *)
Definition matchHere (r : t) (s : JsString.t) : option captures :=
  run r accept s None.

(** [s.match(r)] for a pattern without the [g] flag: the first start
    position, from the left, at which the pattern matches. *)
Fixpoint exec (r : t) (s : JsString.t) : option captures :=
  match matchHere r s with
  | Some c => Some c
  | None =>
      match s with
      | [] => None
      | _ :: s' => exec r s'
      end
  end.

(** One literal character under the [i] flag. *)
Definition ci (a : ascii) : ascii -> bool :=
  fun b => Ascii.eqb (canonicalize b) (canonicalize a).

Fixpoint lit (w : JsString.t) : t :=
  match w with
  | [] => Eps
  | a :: w' => Seq (Chr (ci a)) (lit w')
  end.

Definition plus (greedy : bool) (p : ascii -> bool) : t :=
  Seq (Chr p) (Star greedy p).

Definition opt (r : t) : t := Alt r Eps.

Definition anyChar : ascii -> bool := fun _ => true.

Fixpoint seq (rs : list t) : t :=
  match rs with
  | [] => Eps
  | [r] => r
  | r :: rs' => Seq r (seq rs')
  end.

End Regex.

Import Regex.

(** ** Completions

    A call either returns or throws; [try]/[catch] is a [match]. *)

Inductive completion (A : Type) :=
| Returned (a : A)
| Thrown.

Arguments Returned {A} a.
Arguments Thrown {A}.

Definition bind {A B : Type} (o : completion A) (f : A -> completion B)
    : completion B :=
  match o with
  | Returned a => f a
  | Thrown => Thrown
  end.

Notation "'try!' x := o 'in' k" := (bind o (fun x => k))
  (at level 10, x name, o at level 100, k at level 200).

(** [m[1].f()]: reading a property of [undefined] throws. *)
Definition member (g : captures) : completion JsString.t :=
  match g with
  | Some s => Returned s
  | None => Thrown
  end.

(** ** The patterns of [onChatMessage] *)

Definition LF : ascii := ascii_of_N 10.

Definition colonOrSpace (c : ascii) : bool := Ascii.eqb c ":" || isSpace c.

Definition digitOrDot (c : ascii) : bool := isDigit c || Ascii.eqb c ".".

(** [/\*\*Final Recommendation:\*\*\s*(.+?)(?:\n|$)/i] *)
Definition decisionPattern : Regex.t :=
  seq [ lit (str "**Final Recommendation:**");
        Star true isSpace;
        Group (plus false isDot);
        Alt (lit [LF]) Eos ].

(** [/\*\*Why.*?\*\*([\s\S]*?)(?:\*\*|$)/i] *)
Definition reasoningPattern : Regex.t :=
  seq [ lit (str "**Why");
        Star false isDot;
        lit (str "**");
        Group (Star false anyChar);
        Alt (lit (str "**")) Eos ].

(** [/error rate[:\s]+([\d.]+%?)/i] *)
Definition errorRatePattern : Regex.t :=
  seq [ lit (str "error rate");
        plus true colonOrSpace;
        Group (Seq (plus true digitOrDot) (opt (lit (str "%")))) ].

(** [/(?:latency|p95)[:\s]+([\d.]+ms?)/i] *)
Definition latencyPattern : Regex.t :=
  seq [ Alt (lit (str "latency")) (lit (str "p95"));
        plus true colonOrSpace;
        Group (seq [ plus true digitOrDot; lit (str "m"); opt (lit (str "s")) ]) ].

(** ** Structured extraction from the synthesis text *)

Definition noDecision : JsString.t := str "No clear decision reached".

Definition defaultReasoning : list JsString.t :=
  [ str "Decision made based on agent perspectives" ].

Definition decisionMatch (text : JsString.t) : option captures :=
  exec decisionPattern text.

Definition reasoningMatches (text : JsString.t) : option captures :=
  exec reasoningPattern text.

Definition decision (text : JsString.t) : completion JsString.t :=
  match decisionMatch text with
  | Some m => try! g := member m in Returned (trim g)
  | None => Returned noDecision
  end.

(** [.split(/-/).filter((r) => r.trim()).map((r) => r.trim())] *)
Definition entries (block : JsString.t) : list JsString.t :=
  map trim (filter (fun r => truthy (trim r)) (splitHyphen block)).

(** [.slice(0, 3)] of the entries. *)
Definition bullets (block : JsString.t) : list JsString.t :=
  take 3 (entries block).

Definition reasoning (text : JsString.t) : completion (list JsString.t) :=
  match reasoningMatches text with
  | Some m => try! g := member m in Returned (bullets g)
  | None => Returned defaultReasoning
  end.

(** ** Metrics read from the question *)

Definition captured (m : captures) : number :=
  match m with
  | Some g => parseFloat g
  | None => NaN
  end.

Definition metricsSnapshot (userQuestion : JsString.t)
    : option (gmap string number) :=
  let snapshot : gmap string number := ∅ in
  let errorRateMatch := exec errorRatePattern userQuestion in
  let latencyMatch := exec latencyPattern userQuestion in
  let snapshot :=
    match errorRateMatch with
    | Some m => <["errorRate" := captured m]> snapshot
    | None => snapshot
    end in
  let snapshot :=
    match latencyMatch with
    | Some m => <["latency" := captured m]> snapshot
    | None => snapshot
    end in
  if bool_decide (0 < size snapshot) then Some snapshot else None.

(** ** Data model *)

(** An instant in milliseconds since the epoch.  The source keeps the
    [toISOString] rendering of the instant and reads it back with
    [new Date(..).getTime()]; that round trip returns the instant. *)
Definition instant := Z.

Inductive Status := open | resolved | monitoring.

Module Hypotheses.
Record t := make {
  reliability : JsString.t;
  cost : JsString.t;
  ux : JsString.t }.
End Hypotheses.

Module Outcome.
Record t := make {
  result : JsString.t;
  resolvedAt : option JsString.t;
  notes : option JsString.t }.
End Outcome.

Module IncidentMemory.
Record t := make {
  id : JsString.t;
  question : JsString.t;
  timestamp : instant;
  status : Status;
  metricsSnapshot : option (gmap string number);
  hypotheses : Hypotheses.t;
  decision : JsString.t;
  reasoning : list JsString.t;
  outcome : option Outcome.t;
  summary : option JsString.t }.

(** [incident.summary = s] *)
Definition setSummary (s : JsString.t) (i : t) : t :=
  make (id i) (question i) (timestamp i) (status i) (metricsSnapshot i)
       (hypotheses i) (decision i) (reasoning i) (outcome i) (Some s).
End IncidentMemory.

(** Arrays are objects: a state holds a reference to its [incidents]
    array, and the arrays live in the store of the agent. *)
Definition ref := nat.

Module State.
Record t := make {
  incidents : ref;
  lastUpdated : instant }.
End State.

(** The [DebateCoordinator] instance ([this]). *)
Record Agent := {
  arrays : list (list IncidentMemory.t);
  state : option State.t;
  initialState : State.t }.

(** A fresh instance: [initialState] holds an empty array and the instant
    of creation; no state has been set. *)
Definition newAgent (now : instant) : Agent :=
  {| arrays := [[]]; state := None; initialState := State.make 0 now |}.

Arguments newAgent now%_Z.

Inductive Role := ReliabilityAgent | CostAgent | UXAgent.

#[global] Instance Role_eq_dec : EqDecision Role.
Proof. solve_decision. Defined.

(** What a turn does to the outside, in order. *)
Inductive event :=
| Dispatched (r : Role) (question : JsString.t)
| Settled (r : Role) (o : completion JsString.t)
| SynthesisRequested (content : JsString.t)
| StreamMerged
| SummaryRequested (content : JsString.t)
| StateSet (incidents : list IncidentMemory.t) (lastUpdated : instant)
| ErrorLogged (message : JsString.t)
| ChatRequested.

Record World := {
  self : Agent;
  trace : list event }.

(** ** State and exceptions *)

Definition M (A : Type) : Type := World -> completion A * World.

Definition ret {A : Type} (a : A) : M A := fun w => (Returned a, w).

Definition bindM {A B : Type} (m : M A) (f : A -> M B) : M B :=
  fun w =>
    match m w with
    | (Returned a, w') => f a w'
    | (Thrown, w') => (Thrown, w')
    end.

Notation "'let*' x := m 'in' k" := (bindM m (fun x => k))
  (at level 10, x name, m at level 100, k at level 200).

Notation "'run*' m 'in' k" := (bindM m (fun _ => k))
  (at level 10, m at level 100, k at level 200).

(** [await] of a promise that settled with [o]. *)
Definition await {A : Type} (o : completion A) : M A := fun w => (o, w).

(** [try { body } catch { handler }] *)
Definition tryCatch {A : Type} (body handler : M A) : M A :=
  fun w =>
    match body w with
    | (Returned a, w') => (Returned a, w')
    | (Thrown, w') => handler w'
    end.

Definition emit (e : event) : M unit :=
  fun w => (Returned tt, {| self := self w; trace := trace w ++ [e] |}).

Definition deref (a : Agent) (r : ref) : list IncidentMemory.t :=
  default [] (arrays a !! r).

(** [this.state || this.initialState] *)
Definition currentStateOf (a : Agent) : State.t :=
  default (initialState a) (state a).

Definition getState : M State.t :=
  fun w => (Returned (currentStateOf (self w)), w).

Definition readArray (r : ref) : M (list IncidentMemory.t) :=
  fun w => (Returned (deref (self w) r), w).

(** A fresh array holding [l]. *)
Definition newArray (l : list IncidentMemory.t) : M ref :=
  fun w =>
    let a := self w in
    (Returned (length (arrays a)),
     {| self := {| arrays := arrays a ++ [l];
                   state := state a;
                   initialState := initialState a |};
        trace := trace w |}).

(** An update of the array behind [r], in place. *)
Definition updateArray (r : ref)
    (f : list IncidentMemory.t -> list IncidentMemory.t) : M unit :=
  fun w =>
    let a := self w in
    (Returned tt,
     {| self := {| arrays := <[r := f (deref a r)]> (arrays a);
                   state := state a;
                   initialState := initialState a |};
        trace := trace w |}).

(** [this.setState(s)] *)
Definition setState (s : State.t) : M unit :=
  fun w =>
    let a := self w in
    (Returned tt,
     {| self := {| arrays := arrays a;
                   state := Some s;
                   initialState := initialState a |};
        trace := trace w ++
                 [StateSet (deref a (State.incidents s)) (State.lastUpdated s)] |}).

(** What an observer reads from the agent. *)
Definition incidentsOf (a : Agent) : list IncidentMemory.t :=
  deref a (State.incidents (currentStateOf a)).

Definition lastUpdatedOf (a : Agent) : instant :=
  State.lastUpdated (currentStateOf a).

(** ** [getIncidents] *)

Definition mentions (query : JsString.t) (incident : IncidentMemory.t) : bool :=
  let h := IncidentMemory.hypotheses incident in
  includes query (toLowerCase (IncidentMemory.question incident))
  || includes query (toLowerCase (IncidentMemory.decision incident))
  || includes query (toLowerCase (Hypotheses.reliability h))
  || includes query (toLowerCase (Hypotheses.cost h))
  || includes query (toLowerCase (Hypotheses.ux h))
  || existsb (fun r => includes query (toLowerCase r))
       (IncidentMemory.reasoning incident)
  || match IncidentMemory.summary incident with
     | Some s => truthy s && includes query (toLowerCase s)
     | None => false
     end.

(** [Array.prototype.sort] with the comparator
    [(a, b) => time(b.timestamp) - time(a.timestamp)]: stable, newest
    first. *)
Fixpoint insertByTime (x : IncidentMemory.t) (l : list IncidentMemory.t)
    : list IncidentMemory.t :=
  match l with
  | [] => [x]
  | y :: l' =>
      if (IncidentMemory.timestamp x <? IncidentMemory.timestamp y)%Z
      then y :: insertByTime x l'
      else x :: l
  end.

Definition sortNewestFirst (l : list IncidentMemory.t) : list IncidentMemory.t :=
  foldr insertByTime [] l.

Definition getIncidents (searchQuery : option JsString.t) : M ref :=
  let* currentState := getState in
  let incidents := State.incidents currentState in
  let* incidents :=
    match searchQuery with
    | Some q =>
        if truthy q then
          let query := toLowerCase q in
          let* all := readArray incidents in
          newArray (List.filter (mentions query) all)
        else ret incidents
    | None => ret incidents
    end in
  run* updateArray incidents sortNewestFirst in
  ret incidents.

(** ** [deleteIncident] *)

Record Deleted := {
  success : bool;
  deletedId : JsString.t }.

Definition sameId (a b : JsString.t) : bool := bool_decide (a = b).

Definition deleteIncident (now : instant) (id : JsString.t) : M Deleted :=
  let* currentState := getState in
  let* all := readArray (State.incidents currentState) in
  let* nextIncidents :=
    newArray (List.filter (fun i => negb (sameId (IncidentMemory.id i) id)) all) in
  run* setState (State.make nextIncidents now) in
  ret {| success := true; deletedId := id |}.

Arguments deleteIncident now%_Z id.

(** ** [onChatMessage] *)

Module Part.
Record t := make {
  type : JsString.t;
  text : option JsString.t }.
End Part.

Module Message.
Record t := make {
  parts : option (list Part.t) }.
End Message.

(** [lastMessage?.parts?.find((p) => p.type === "text")?.text || ""] *)
Definition userQuestionOf (processedMessages : list Message.t) : JsString.t :=
  default []
    (lastMessage ← last processedMessages;
     parts ← Message.parts lastMessage;
     p ← List.find (fun p => sameId (Part.type p) (str "text")) parts;
     Part.text p).

Definition decisionKeywords : list JsString.t :=
  map str
    [ "rollback"; "deploy"; "hotfix"; "launch"; "release"; "should we";
      "decision" ]%string.

Definition isDecisionQuestion (userQuestion : JsString.t) : bool :=
  existsb (fun keyword => includes keyword (toLowerCase userQuestion))
    decisionKeywords.

(** The collaborators of a turn: the three perspective agents, the text
    completion behind the synthesis and the summary, [generateId] and the
    two readings of the clock. *)
Record Services := {
  getPerspective : Role -> JsString.t -> completion JsString.t;
  synthesisText : JsString.t -> completion JsString.t;
  summaryText : JsString.t -> completion JsString.t;
  generateId : JsString.t;
  createdAt : instant;
  storedAt : instant }.

Definition unavailable (r : Role) : JsString.t :=
  match r with
  | ReliabilityAgent => str "Reliability Agent unavailable."
  | CostAgent => str "Cost Agent unavailable."
  | UXAgent => str "UX / User Impact Agent unavailable."
  end.

Definition perspectiveError (r : Role) : JsString.t :=
  match r with
  | ReliabilityAgent => str "Error getting reliability agent perspective:"
  | CostAgent => str "Error getting cost agent perspective:"
  | UXAgent => str "Error getting UX agent perspective:"
  end.

(** One [try { agent = await getAgentByName(..);
    p = await agent.getPerspective(q) } catch { log; p = fallback }]:
    [o] is how the two awaits of the block settle together; the call is
    awaited before the statement after the block runs. *)
Definition perspective (env : Services) (r : Role) (userQuestion : JsString.t)
    : M JsString.t :=
  tryCatch
    (run* emit (Dispatched r userQuestion) in
     let o := getPerspective env r userQuestion in
     run* emit (Settled r o) in
     await o)
    (run* emit (ErrorLogged (perspectiveError r)) in
     ret (unavailable r)).

Definition synthesisContent (userQuestion reliabilityPerspective
    costPerspective uxPerspective : JsString.t) : JsString.t :=
  str "Question: " ++ userQuestion ++ [LF; LF]
  ++ str "Reliability Agent Perspective:" ++ [LF]
  ++ reliabilityPerspective ++ [LF; LF]
  ++ str "Cost Agent Perspective:" ++ [LF]
  ++ costPerspective ++ [LF; LF]
  ++ str "UX / User Impact Agent Perspective:" ++ [LF]
  ++ uxPerspective ++ [LF; LF]
  ++ str "Synthesize a final recommendation that considers all perspectives.".

(** [a.join(sep)] *)
Fixpoint join (sep : JsString.t) (l : list JsString.t) : JsString.t :=
  match l with
  | [] => []
  | [x] => x
  | x :: l' => x ++ sep ++ join sep l'
  end.

Definition summaryContent (incident : IncidentMemory.t) : JsString.t :=
  let h := IncidentMemory.hypotheses incident in
  str "Question: " ++ IncidentMemory.question incident ++ [LF; LF]
  ++ str "Perspectives:" ++ [LF]
  ++ str "- Reliability: " ++ Hypotheses.reliability h ++ [LF]
  ++ str "- Cost/Effort: " ++ Hypotheses.cost h ++ [LF]
  ++ str "- UX/User Impact: " ++ Hypotheses.ux h ++ [LF; LF]
  ++ str "Decision: " ++ IncidentMemory.decision incident ++ [LF]
  ++ str "Reasoning: " ++ join (str "; ") (IncidentMemory.reasoning incident).

Definition generateSummary (env : Services) (incident : IncidentMemory.t)
    : M JsString.t :=
  let content := summaryContent incident in
  run* emit (SummaryRequested content) in
  await (summaryText env content).

(** The block detached after the stream is merged: extraction, the
    record, its summary, then the one state update. *)
Definition storeIncident (env : Services) (userQuestion reliabilityPerspective
    costPerspective uxPerspective content : JsString.t) : M unit :=
  tryCatch
    (let* text := await (synthesisText env content) in
     let* decision := await (decision text) in
     let* reasoning := await (reasoning text) in
     let incident :=
       IncidentMemory.make (generateId env) userQuestion (createdAt env) open
         (metricsSnapshot userQuestion)
         (Hypotheses.make reliabilityPerspective costPerspective uxPerspective)
         decision reasoning None None in
     let* summary := generateSummary env incident in
     let incident := IncidentMemory.setSummary summary incident in
     let* currentState := getState in
     let* all := readArray (State.incidents currentState) in
     let* incidents := newArray (all ++ [incident]) in
     setState (State.make incidents (storedAt env)))
    (emit (ErrorLogged (str "Error storing incident memory:"))).

Inductive Reply :=
| Debate (content : JsString.t)
| Chat.

Definition onChatMessage (env : Services) (processedMessages : list Message.t)
    : M Reply :=
  let userQuestion := userQuestionOf processedMessages in
  if isDecisionQuestion userQuestion then
    let* reliabilityPerspective := perspective env ReliabilityAgent userQuestion in
    let* costPerspective := perspective env CostAgent userQuestion in
    let* uxPerspective := perspective env UXAgent userQuestion in
    let content :=
      synthesisContent userQuestion reliabilityPerspective costPerspective
        uxPerspective in
    run* emit (SynthesisRequested content) in
    run* emit StreamMerged in
    run* storeIncident env userQuestion reliabilityPerspective
           costPerspective uxPerspective content in
    ret (Debate content)
  else
    run* emit ChatRequested in
    run* emit StreamMerged in
    ret Chat.

(** ** Notions used by the statements *)

(** A literal is a prefix of [s] under the [i] flag. *)
Fixpoint startsWithCi (w s : JsString.t) : bool :=
  match w, s with
  | [], _ => true
  | _ :: _, [] => false
  | a :: w', b :: s' => ci a b && startsWithCi w' s'
  end.

(** Every successful path through the pattern passes its group. *)
Fixpoint grouped (r : Regex.t) : bool :=
  match r with
  | Group _ => true
  | Seq r1 r2 => grouped r1 || grouped r2
  | Alt r1 r2 => grouped r1 && grouped r2
  | _ => false
  end.

(** A method call on the agent [a], with an empty trace. *)
Definition call {A : Type} (m : M A) (a : Agent) : completion A * World :=
  m {| self := a; trace := [] |}.

(** The block of the extraction example, in its two parts. *)
Definition recommendationPart : JsString.t :=
  str "**Final Recommendation:**" ++ [LF] ++ str "Roll back." ++ [LF; LF].

Definition whyBody : JsString.t :=
  [LF] ++ str "- A" ++ [LF] ++ str "- B".

Definition whyPart : JsString.t := str "**Why:**" ++ whyBody.

Definition exampleBlock : JsString.t := recommendationPart ++ whyPart.

(** The template head that the synthesis prompt asks for. *)
Definition perspectivesPart : JsString.t :=
  str "**Perspectives (1 bullet each):**" ++ [LF]
  ++ str "- Reliability: error budget is gone." ++ [LF]
  ++ str "- Cost/Effort: a rollback is cheap." ++ [LF]
  ++ str "- UX/User Impact: checkout is failing." ++ [LF; LF].

(** [keyword] occurs in [text] up to letter case. *)
Definition occursIgnoringCase (keyword text : JsString.t) : Prop :=
  exists pre mid post,
    text = pre ++ mid ++ post /\ toLowerCase mid = toLowerCase keyword.

(** Case-insensitive occurrence, said without [toLowerCase]: two code
    units are the same letter when they are equal or are the capital
    (A-Z) and the small form (a-z) of one letter, 32 apart. *)
Definition isCapital (c : ascii) : bool := between 65 90 c.

Definition sameLetter (a b : ascii) : bool :=
  Ascii.eqb a b
  || (isCapital a && (code b =? code a + 32)%N)
  || (isCapital b && (code a =? code b + 32)%N).

(** [keyword] is a case-insensitive substring of [text]: some piece of
    [text] agrees with it letter by letter. *)
Definition occursUpToCase (keyword text : JsString.t) : Prop :=
  exists pre mid post,
    text = pre ++ mid ++ post
    /\ Forall2 (fun c k => sameLetter c k = true) mid keyword.

(** The code units of the keywords: small letters and the space. *)
Definition smallOrSpace (c : ascii) : bool :=
  between 97 122 c || (code c =? 32)%N.

(** All the code units of the modelled range. *)
Definition codeUnits : list ascii := map ascii_of_nat (List.seq 0 256).

(** An agent whose state holds the given incidents. *)
Definition agentWith (incidents : list IncidentMemory.t) (lastUpdated : instant)
    : Agent :=
  {| arrays := [[]; incidents];
     state := Some (State.make 1 lastUpdated);
     initialState := State.make 0 0%Z |}.

Arguments agentWith incidents lastUpdated%_Z.

(** The state updates of a trace, in order. *)
Definition stateUpdates (tr : list event)
    : list (list IncidentMemory.t * instant) :=
  omap (fun e => match e with
                 | StateSet incidents lastUpdated => Some (incidents, lastUpdated)
                 | _ => None
                 end) tr.

(** ** Sample inputs *)

Definition sampleQuestion : JsString.t := str "Should we rollback the release?".

Definition sampleMessages : list Message.t :=
  [ Message.make (Some [ Part.make (str "text") (Some sampleQuestion) ]) ].

Definition sampleServices : Services :=
  {| getPerspective r _ :=
       Returned match r with
                | ReliabilityAgent => str "Roll back now."
                | CostAgent => str "A rollback is cheap."
                | UXAgent => str "Users are hurting."
                end;
     synthesisText _ := Returned (perspectivesPart ++ exampleBlock);
     summaryText _ := Returned (str "Rolled back the release.");
     generateId := str "incident-1";
     createdAt := 1000%Z;
     storedAt := 2000%Z |}.

(** The same services with one perspective agent out of reach. *)
Definition without (failed : Role) (env : Services) : Services :=
  {| getPerspective r q :=
       if bool_decide (r = failed) then Thrown else getPerspective env r q;
     synthesisText := synthesisText env;
     summaryText := summaryText env;
     generateId := generateId env;
     createdAt := createdAt env;
     storedAt := storedAt env |}.

Definition sampleIncident (id : string) (at_ : instant) : IncidentMemory.t :=
  IncidentMemory.make (str id) (str "Should we deploy?") at_ open None
    (Hypotheses.make (str "r") (str "c") (str "u"))
    (str "Deploy.") [str "Low risk"] None (Some (str "Deployed.")).

Arguments sampleIncident id%_string at_%_Z.

(** ** What a turn computes, named for the statements *)

Definition resultOf {A : Type} (m : M A) (a : Agent) : completion A :=
  fst (call m a).

Definition agentAfter {A : Type} (m : M A) (a : Agent) : Agent :=
  self (snd (call m a)).

Definition traceOf {A : Type} (m : M A) (a : Agent) : list event :=
  trace (snd (call m a)).

(** The perspective that reaches the synthesis for role [r]. *)
Definition perspectiveOf (env : Services) (r : Role) (q : JsString.t)
    : JsString.t :=
  match getPerspective env r q with
  | Returned p => p
  | Thrown => unavailable r
  end.

Definition perspectiveEvents (env : Services) (r : Role) (q : JsString.t)
    : list event :=
  [ Dispatched r q; Settled r (getPerspective env r q) ]
  ++ match getPerspective env r q with
     | Returned _ => []
     | Thrown => [ ErrorLogged (perspectiveError r) ]
     end.

Definition contentOf (env : Services) (q : JsString.t) : JsString.t :=
  synthesisContent q (perspectiveOf env ReliabilityAgent q)
    (perspectiveOf env CostAgent q) (perspectiveOf env UXAgent q).

(** The trace of a debate turn up to the merge of the synthesis stream. *)
Definition foreground (env : Services) (q : JsString.t) : list event :=
  perspectiveEvents env ReliabilityAgent q
  ++ perspectiveEvents env CostAgent q
  ++ perspectiveEvents env UXAgent q
  ++ [ SynthesisRequested (contentOf env q); StreamMerged ].

(** The record of a turn before its summary is set. *)
Definition draftOf (env : Services) (q d : JsString.t) (rs : list JsString.t)
    : IncidentMemory.t :=
  IncidentMemory.make (generateId env) q (createdAt env) open
    (metricsSnapshot q)
    (Hypotheses.make (perspectiveOf env ReliabilityAgent q)
       (perspectiveOf env CostAgent q) (perspectiveOf env UXAgent q))
    d rs None None.

(** C1 as stated: some state update holds the record without a summary
    and a later one holds the record of the same id with its summary. *)
Definition summaryAttachedLater
    (updates : list (list IncidentMemory.t * instant)) : Prop :=
  exists i j first second r1 r2,
    i < j /\ updates !! i = Some first /\ updates !! j = Some second
    /\ r1 ∈ first.1 /\ IncidentMemory.summary r1 = None
    /\ r2 ∈ second.1 /\ IncidentMemory.id r2 = IncidentMemory.id r1
    /\ is_Some (IncidentMemory.summary r2).

(** C9 as stated: every perspective call is dispatched before any of
    them has settled. *)
Definition dispatchedTogether (tr : list event) : Prop :=
  forall i j r q r' o,
    tr !! i = Some (Dispatched r q) -> tr !! j = Some (Settled r' o) -> i < j.

From Stdlib Require Import Sorted.

(** ** The HTTP surface of the coordinator *)

(** A parsed JSON value; the members of an object in the order of the
    text, a repeated key read at its last occurrence. *)
#[local] Unset Elimination Schemes.

Inductive Json :=
| JNull
| JBool (b : bool)
| JNumber (n : Q)
| JString (s : JsString.t)
| JArray (items : list Json)
| JObject (members : list (JsString.t * Json)).

#[local] Set Elimination Schemes.

(** [v?.id]: [None] is [undefined]; only an object has the property. *)
Definition idOf (v : Json) : option Json :=
  match v with
  | JObject members =>
      snd <$> last (filter (fun kv => kv.1 = str "id") members)
  | _ => None
  end.

Module Request.
(** [action] is [url.searchParams.get("action")]; [json] is how
    [request.json()] settles. *)
Record t := make {
  method : JsString.t;
  action : option JsString.t;
  json : completion Json }.
End Request.

Inductive Body :=
| JsonBody (v : Json)
| TextBody (s : JsString.t).

Module Response.
Record t := make {
  status : nat;
  body : Body }.
End Response.

(** The handlers of the base class [AIChatAgent]. *)
Record Base := {
  superFetch : Request.t -> M Response.t;
  superOnRequest : Request.t -> M (option Response.t) }.

Definition isDeleteIncident (request : Request.t) : bool :=
  sameId (Request.method request) (str "POST")
  && match Request.action request with
     | Some a => sameId a (str "delete-incident")
     | None => false
     end.

(** [Response.json({ success: false, error }, { status })] *)
Definition failure (status : nat) (error : JsString.t) : Response.t :=
  Response.make status
    (JsonBody (JObject [ (str "success", JBool false);
                         (str "error", JString error) ])).

(** [Response.json(result)] *)
Definition deleted (result : Deleted) : Response.t :=
  Response.make 200
    (JsonBody (JObject [ (str "success", JBool (success result));
                         (str "deletedId", JString (deletedId result)) ])).

(** [typeof body?.id === "string" ? body.id : null], with
    [request.json().catch(() => null)] for the body. *)
Definition requestedId (request : Request.t) : option JsString.t :=
  let body :=
    match Request.json request with
    | Returned v => v
    | Thrown => JNull
    end in
  match idOf body with
  | Some (JString s) => Some s
  | _ => None
  end.

Definition fetch (base : Base) (now : instant) (request : Request.t)
    : M Response.t :=
  if isDeleteIncident request then
    tryCatch
      (match requestedId request with
       | Some id =>
           if truthy id then
             let* result := deleteIncident now id in
             ret (deleted result)
           else ret (failure 400 (str "Missing incident id"))
       | None => ret (failure 400 (str "Missing incident id"))
       end)
      (run* emit (ErrorLogged (str "delete-incident request failed:")) in
       ret (failure 500 (str "Internal error")))
  else superFetch base request.

Definition onRequest (base : Base) (now : instant) (request : Request.t)
    : M Response.t :=
  if isDeleteIncident request then
    tryCatch
      (match requestedId request with
       | Some id =>
           if truthy id then
             let* result := deleteIncident now id in
             ret (deleted result)
           else ret (failure 400 (str "Missing incident id"))
       | None => ret (failure 400 (str "Missing incident id"))
       end)
      (run* emit (ErrorLogged (str "delete-incident request failed:")) in
       ret (failure 500 (str "Internal error")))
  else
    let* answer := superOnRequest base request in
    ret (default (Response.make 404 (TextBody (str "Not found"))) answer).

Arguments fetch base now%_Z request.
Arguments onRequest base now%_Z request.

(** ** Notions used by the further statements *)

(** The strings a pattern can consume. *)
Fixpoint denote (r : Regex.t) (u : JsString.t) : Prop :=
  match r with
  | Eps => u = []
  | Chr p => exists a, u = [a] /\ p a = true
  | Seq r1 r2 => exists u1 u2, u = u1 ++ u2 /\ denote r1 u1 /\ denote r2 u2
  | Alt r1 r2 => denote r1 u \/ denote r2 u
  | Star _ p => forallb p u = true
  | Group r' => denote r' u
  | Eos => u = []
  end.

(** Whatever the group of the pattern consumes satisfies [P]. *)
Fixpoint groupsAll (P : JsString.t -> Prop) (r : Regex.t) : Prop :=
  match r with
  | Group r' => forall u, denote r' u -> P u
  | Seq r1 r2 | Alt r1 r2 => groupsAll P r1 /\ groupsAll P r2
  | _ => True
  end.

Definition CR : ascii := ascii_of_N 13.

(** No white space at either end. *)
Definition trimmed (s : JsString.t) : Prop :=
  (forall c, head s = Some c -> isSpace c = false)
  /\ (forall c, last s = Some c -> isSpace c = false).

(** Newest first. *)
Definition notOlder (a b : IncidentMemory.t) : Prop :=
  (IncidentMemory.timestamp b <= IncidentMemory.timestamp a)%Z.


(** The array of the state exists in the store. *)
Definition wellFormed (a : Agent) : Prop :=
  State.incidents (currentStateOf a) < length (arrays a).

Definition ids (l : list IncidentMemory.t) : list JsString.t :=
  map IncidentMemory.id l.

(** The incidents that a deletion of [id] keeps. *)
Definition others (id : JsString.t) (l : list IncidentMemory.t)
    : list IncidentMemory.t :=
  List.filter (fun i => negb (sameId (IncidentMemory.id i) id)) l.

(** A base class that answers nothing. *)
Definition silentBase : Base :=
  {| superFetch _ := ret (Response.make 404 (TextBody (str "Not found")));
     superOnRequest _ := ret None |}.

Definition deleteRequest (body : completion Json) : Request.t :=
  Request.make (str "POST") (Some (str "delete-incident")) body.

(** The message logged when the detached block of a turn fails. *)
Definition storingFailed : event :=
  ErrorLogged (str "Error storing incident memory:").

(** * Properties *)

Arguments str : simpl never.

(** ** The embedding on small inputs *)

Example trim_sample :
  trim ([LF] ++ str "  low cost " ++ [LF]) = str "low cost".
Proof. reflexivity. Qed.

Example split_sample :
  splitHyphen (str "a-b--c") = [str "a"; str "b"; []; str "c"].
Proof. reflexivity. Qed.

Example split_empty : splitHyphen [] = [[]].
Proof. reflexivity. Qed.

Example parseFloat_percent : parseFloat (str "6.5%") = Num (13 # 2).
Proof. reflexivity. Qed.

Example parseFloat_unit : parseFloat (str "120ms") = Num 120.
Proof. reflexivity. Qed.

Example parseFloat_dots : parseFloat (str "..") = NaN.
Proof. reflexivity. Qed.

(** Rounding to the nearest double: 2^53 + 1 is a tie and goes to the
    even neighbour, 0.1 to the double next to it. *)
Example parseFloat_tie :
  parseFloat (str "9007199254740993") = Num 9007199254740992
  /\ parseFloat (str "9007199254740995") = Num 9007199254740996.
Proof. split; vm_compute; reflexivity. Qed.

Example parseFloat_tenth :
  parseFloat (str "0.1") = Num (3602879701896397 # 36028797018963968).
Proof. vm_compute. reflexivity. Qed.

(** Past the largest double the result is infinite; below half of the
    smallest one it is zero. *)
Example parseFloat_overflow :
  parseFloat (str "1" ++ repeat "0"%char 309) = Infinity false
  /\ parseFloat (str "1e309") = Infinity false
  /\ parseFloat (str "-1e309") = Infinity true
  /\ parseFloat (str "1.7976931348623157e308")
     = Num ((2 ^ 1024 - 2 ^ 971)%Z # 1).
Proof. repeat split; vm_compute; reflexivity. Qed.

Example parseFloat_underflow :
  parseFloat (str "2e-324") = Num 0
  /\ parseFloat (str "3e-324") = Num (1 # 2 ^ 1074).
Proof. split; vm_compute; reflexivity. Qed.

(** The longest prefix that is a literal is read: an exponent needs its
    digits, a second dot ends the number. *)
Example parseFloat_prefix :
  parseFloat (str "1e3") = Num 1000
  /\ parseFloat (str "1e+") = Num 1
  /\ parseFloat (str "5.e2") = Num 500
  /\ parseFloat (str ".5") = Num (1 # 2)
  /\ parseFloat (str "1.5.3") = Num (3 # 2)
  /\ parseFloat (str "  -2.5x") = Num (-5 # 2)
  /\ parseFloat (str "-0") = NegativeZero
  /\ parseFloat (str "Infinity") = Infinity false
  /\ parseFloat (str "e3") = NaN.
Proof. repeat split; vm_compute; reflexivity. Qed.

(** A capture of dots only is stored as NaN, one of too many digits as
    the infinity. *)
Example metrics_not_finite :
  metricsSnapshot (str "error rate: ..")
    = Some {[ "errorRate"%string := NaN ]}
  /\ metricsSnapshot (str "p95: 1" ++ repeat "0"%char 309 ++ str "ms")
    = Some {[ "latency"%string := Infinity false ]}.
Proof. split; vm_compute; reflexivity. Qed.

Example decision_lazy_line :
  exec decisionPattern (str "**final recommendation:**  Hold.  " ++ [LF] ++ str "x")
  = Some (Some (str "Hold.  ")).
Proof. reflexivity. Qed.

Example reasoning_stops_at_bold :
  exec reasoningPattern (str "**Why (max 3 bullets):** - a - b **Next**")
  = Some (Some (str " - a - b ")).
Proof. reflexivity. Qed.

Example errorRate_needs_adjacent_number :
  exec errorRatePattern (str "Error Rate:  0.7% now") = Some (Some (str "0.7%"))
  /\ exec errorRatePattern (str "error rate is 6.5%") = None.
Proof. split; reflexivity. Qed.

Example latency_needs_unit :
  exec latencyPattern (str "p95 900MS") = Some (Some (str "900MS"))
  /\ exec latencyPattern (str "latency: 120") = None.
Proof. split; reflexivity. Qed.

Example sort_is_stable :
  map IncidentMemory.id
    (sortNewestFirst [ sampleIncident "a" 10; sampleIncident "b" 20;
                       sampleIncident "c" 10; sampleIncident "d" 20 ])
  = [str "b"; str "d"; str "a"; str "c"].
Proof. reflexivity. Qed.

Example chat_turn :
  call (onChatMessage sampleServices
          [ Message.make (Some [ Part.make (str "text")
                                   (Some (str "What is an SLO?")) ]) ])
    (newAgent 5)
  = (Returned Chat,
     {| self := newAgent 5; trace := [ChatRequested; StreamMerged] |}).
Proof. reflexivity. Qed.

(** ** Strings *)

Section StringFacts.

Implicit Types (s needle hay : JsString.t) (c : ascii).

Lemma startsWith_app needle rest : startsWith needle (needle ++ rest) = true.
Proof.
  induction needle as [|a n IH]; simpl; [done|].
  by rewrite Ascii.eqb_refl, IH.
Qed.

Lemma startsWith_inv needle hay :
  startsWith needle hay = true -> exists rest, hay = needle ++ rest.
Proof.
  revert hay; induction needle as [|a n IH]; intros hay H.
  - by exists hay.
  - destruct hay as [|b h]; simpl in H; [done|].
    apply andb_prop in H as [Hab Hn].
    apply Ascii.eqb_eq in Hab as ->.
    destruct (IH _ Hn) as [rest ->]. by exists rest.
Qed.

Lemma includes_startsWith needle hay :
  startsWith needle hay = true -> includes needle hay = true.
Proof. intros H. destruct hay; simpl; by rewrite H. Qed.

Lemma includes_intro pre needle post :
  includes needle (pre ++ needle ++ post) = true.
Proof.
  induction pre as [|a p IH]; simpl.
  - apply includes_startsWith, startsWith_app.
  - rewrite IH. apply orb_true_r.
Qed.

Lemma includes_inv needle hay :
  includes needle hay = true -> exists pre post, hay = pre ++ needle ++ post.
Proof.
  induction hay as [|a h IH]; simpl; intros H.
  - rewrite orb_false_r in H. apply startsWith_inv in H as [rest ->].
    by exists [], rest.
  - apply orb_prop in H as [H|H].
    + apply startsWith_inv in H as [rest ->]. by exists [], rest.
    + destruct (IH H) as (pre & post & ->). by exists (a :: pre), post.
Qed.

(** A string that contains [a ++ needle ++ b] contains [needle]. *)
Lemma includes_inner a needle b hay :
  includes (a ++ needle ++ b) hay = true -> includes needle hay = true.
Proof.
  intros H. apply includes_inv in H as (pre & post & ->).
  replace (pre ++ (a ++ needle ++ b) ++ post)
    with ((pre ++ a) ++ needle ++ (b ++ post)) by (by rewrite <- !app_assoc).
  apply includes_intro.
Qed.

Lemma includes_suffix needle pre hay :
  includes needle hay = true -> includes needle (pre ++ hay) = true.
Proof.
  intros H. induction pre as [|a p IH]; simpl; [done|].
  rewrite IH. apply orb_true_r.
Qed.

Lemma toLowerCase_app s1 s2 :
  toLowerCase (s1 ++ s2) = toLowerCase s1 ++ toLowerCase s2.
Proof. apply map_app. Qed.

Lemma lower_canonicalize c : lower (canonicalize c) = lower c.
Proof. destruct c as [[] [] [] [] [] [] [] []]; reflexivity. Qed.

Lemma indexOf_before needle hay k :
  indexOf needle hay = Some k ->
  forall i, i < k -> startsWith needle (drop i hay) = false.
Proof.
  revert k; induction hay as [|a h IH]; intros k H i Hi.
  - simpl in H. destruct (startsWith needle []); [|done].
    injection H as <-. lia.
  - cbn [indexOf] in H. destruct (startsWith needle (a :: h)) eqn:E.
    + injection H as <-. lia.
    + destruct (indexOf needle h) as [k'|] eqn:E'; [|done].
      injection H as <-. destruct i as [|i]; [done|].
      simpl. apply (IH k'); [done|lia].
Qed.

Lemma trimStart_subseteq s : trimStart s ⊆ s.
Proof.
  induction s as [|a s IH]; simpl; [done|].
  destruct (isSpace a); [|done]. by apply list_subseteq_cons.
Qed.

Lemma trim_subseteq s : trim s ⊆ s.
Proof.
  unfold trim, trimEnd. intros x Hx.
  apply trimStart_subseteq.
  rewrite elem_of_reverse in Hx. apply trimStart_subseteq in Hx.
  by rewrite elem_of_reverse in Hx.
Qed.

Lemma trimStart_spaces ws s :
  forallb isSpace ws = true -> trimStart (ws ++ s) = trimStart s.
Proof.
  induction ws as [|a ws IH]; cbn [forallb app trimStart]; intros H; [done|].
  apply andb_prop in H as [-> H]. by apply IH.
Qed.

(** White space after [s] does not change [trimEnd s]. *)
Lemma trimEnd_spaces s ws :
  forallb isSpace ws = true -> trimEnd (s ++ ws) = trimEnd s.
Proof.
  intros H. unfold trimEnd. rewrite reverse_app, trimStart_spaces; [done|].
  apply forallb_forall. intros x Hx. apply list_elem_of_In in Hx.
  rewrite elem_of_reverse in Hx. apply list_elem_of_In in Hx.
  by apply (proj1 (forallb_forall _ _) H).
Qed.

Lemma splitHyphen_nonempty s : splitHyphen s <> [].
Proof.
  induction s as [|a s IH]; simpl; [done|].
  destruct (Ascii.eqb a "-"); [done|]. by destruct (splitHyphen s).
Qed.

(** Every hyphen separates: the pieces of [l ++ "-" ++ r] are the pieces
    of [l] followed by the pieces of [r]. *)
Lemma splitHyphen_app l r :
  splitHyphen (l ++ "-"%char :: r) = splitHyphen l ++ splitHyphen r.
Proof.
  induction l as [|a l IH]; simpl; [done|].
  rewrite IH. destruct (Ascii.eqb a "-"); [done|].
  pose proof (splitHyphen_nonempty l).
  by destruct (splitHyphen l).
Qed.

Lemma splitHyphen_plain s :
  "-"%char ∉ s -> splitHyphen s = [s].
Proof.
  induction s as [|a s IH]; simpl; intros H; [done|].
  apply not_elem_of_cons in H as [Ha Hs].
  destruct (Ascii.eqb a "-") eqn:E.
  - apply Ascii.eqb_eq in E. congruence.
  - by rewrite (IH Hs).
Qed.

Lemma splitHyphen_pieces s p :
  p ∈ splitHyphen s -> "-"%char ∉ p.
Proof.
  revert p; induction s as [|a s IH]; simpl; intros p Hp.
  - apply list_elem_of_singleton in Hp as ->. apply not_elem_of_nil.
  - destruct (Ascii.eqb a "-") eqn:E.
    + apply elem_of_cons in Hp as [->|Hp]; [apply not_elem_of_nil|by apply IH].
    + destruct (splitHyphen s) as [|q qs]; simpl in *.
      * apply list_elem_of_singleton in Hp as ->.
        apply not_elem_of_cons; split; [|apply not_elem_of_nil].
        intros <-. by rewrite Ascii.eqb_refl in E.
      * apply elem_of_cons in Hp as [->|Hp].
        -- apply not_elem_of_cons; split.
           ++ intros <-. by rewrite Ascii.eqb_refl in E.
           ++ apply IH. by left.
        -- apply IH. by right.
Qed.

End StringFacts.

(** ** The matcher *)

Section RegexFacts.

Implicit Types (r : Regex.t) (k : cont) (s w : JsString.t) (c : captures).

Lemma ci_lower a b : ci a b = true -> lower b = lower a.
Proof.
  unfold ci. intros H. apply Ascii.eqb_eq in H.
  rewrite <- (lower_canonicalize b), H. apply lower_canonicalize.
Qed.

Lemma startsWithCi_lower w s :
  startsWithCi w s = true ->
  startsWith (toLowerCase w) (toLowerCase s) = true.
Proof.
  revert s; induction w as [|a w IH]; intros [|b s] H; simpl in *; try done.
  apply andb_prop in H as [Hab Hw].
  rewrite (ci_lower _ _ Hab), Ascii.eqb_refl. by apply IH.
Qed.

Lemma run_lit w k s c :
  run (lit w) k s c =
  if startsWithCi w s then k (drop (length w) s) c else None.
Proof.
  revert s; induction w as [|a w IH]; intros s; simpl; [done|].
  destruct s as [|b s]; [done|]. simpl.
  destruct (ci a b); [apply IH|done].
Qed.

Lemma startsWithCi_self w s : startsWithCi w (w ++ s) = true.
Proof.
  induction w as [|a w IH]; cbn [startsWithCi app]; [done|].
  unfold ci at 1. by rewrite Ascii.eqb_refl, IH.
Qed.

Lemma run_lit_here w k s c : run (lit w) k (w ++ s) c = k s c.
Proof. by rewrite run_lit, startsWithCi_self, drop_app_length. Qed.

Lemma exec_here r s c : matchHere r s = Some c -> exec r s = Some c.
Proof. intros H. destruct s; cbn [exec]; by rewrite H. Qed.

(** What a group captures: the part of the input it consumed. *)
Lemma take_consumed (u s : JsString.t) :
  take (length (u ++ s) - length s) (u ++ s) = u.
Proof.
  rewrite length_app.
  replace (length u + length s - length s) with (length u) by lia.
  by rewrite take_app_length.
Qed.

Lemma star_lazy_here p k s c x :
  k s c = Some x -> star false p k s c = Some x.
Proof. intros H. destruct s; cbn [star]; by rewrite H. Qed.

(** A lazy repetition walks over [u] when its continuation fails at
    every position of [u]. *)
Lemma star_lazy_skip p k u s c :
  forallb p u = true ->
  (forall i, i < length u -> k (drop i (u ++ s)) c = None) ->
  star false p k (u ++ s) c = star false p k s c.
Proof.
  induction u as [|a u IH]; cbn [forallb app]; intros Hp Hk; [done|].
  apply andb_prop in Hp as [Ha Hp]. cbn [star].
  pose proof (Hk 0) as H0. cbn [drop app] in H0.
  rewrite H0 by (cbn; lia). rewrite Ha.
  apply IH; [done|]. intros i Hi. apply (Hk (S i)). cbn; lia.
Qed.

Lemma ci_asterisk x : ci "*" x = true -> x = "*"%char.
Proof.
  destruct x as [[] [] [] [] [] [] [] []]; vm_compute; intros H;
    first [reflexivity|discriminate].
Qed.

(** [([\s\S]*?)(?:\*\*|$)] captures the text up to the next asterisk
    pair, or up to the end. *)
Lemma capture_until_bold (u rest : JsString.t) c :
  "*"%char ∉ u ->
  rest = [] \/ startsWith (str "**") rest = true ->
  run (Group (Star false anyChar)) (run (Alt (lit (str "**")) Eos) accept)
    (u ++ rest) c
  = Some (Some u).
Proof.
  intros Hu Hrest. cbn [run]. rewrite star_lazy_skip.
  - apply star_lazy_here. rewrite take_consumed.
    destruct Hrest as [->|Hrest].
    + reflexivity.
    + apply startsWith_inv in Hrest as [rest' ->].
      by rewrite run_lit_here.
  - by apply forallb_forall.
  - intros i Hi.
    destruct (drop i (u ++ rest)) as [|x t] eqn:E.
    { apply (f_equal length) in E. rewrite length_drop, length_app in E.
      cbn in E. lia. }
    assert (x ∈ u) as Hx.
    { apply (list_elem_of_lookup_2 _ i).
      rewrite <- (lookup_app_l u rest) by done.
      rewrite <- (Nat.add_0_r i), <- lookup_drop, E. done. }
    rewrite run_lit. change (str "**") with ["*"%char; "*"%char].
    cbn [startsWithCi].
    destruct (ci "*" x) eqn:Hci; [|done].
    apply ci_asterisk in Hci. congruence.
Qed.

(** A pattern that opens with a literal matches only where the lowered
    text opens with the lowered literal. *)
Lemma matchHere_lit w r s :
  startsWith (toLowerCase w) (toLowerCase s) = false ->
  matchHere (Seq (lit w) r) s = None.
Proof.
  intros H. unfold matchHere. cbn [run]. rewrite run_lit.
  destruct (startsWithCi w s) eqn:E; [|done].
  apply startsWithCi_lower in E. congruence.
Qed.

Lemma exec_absent w r s :
  includes (toLowerCase w) (toLowerCase s) = false ->
  exec (Seq (lit w) r) s = None.
Proof.
  induction s as [|a s IH]; cbn [exec toLowerCase map includes]; intros H.
  - apply orb_false_elim in H as [H _]. by rewrite matchHere_lit.
  - apply orb_false_elim in H as [H1 H2].
    rewrite matchHere_lit by done. by apply IH.
Qed.

Lemma exec_skip r pre s :
  (forall i, i < length pre -> matchHere r (drop i (pre ++ s)) = None) ->
  exec r (pre ++ s) = exec r s.
Proof.
  induction pre as [|a pre IH]; intros H; [done|].
  cbn [exec app]. pose proof (H 0) as H0. cbn [drop app] in H0.
  rewrite H0 by (simpl; lia).
  apply IH. intros i Hi. apply (H (S i)). simpl; lia.
Qed.

(** When the first occurrence of the lowered literal is at the end of
    [pre], the search starts matching there. *)
Lemma exec_first_occurrence w r pre s :
  indexOf (toLowerCase w) (toLowerCase (pre ++ s)) = Some (length pre) ->
  exec (Seq (lit w) r) (pre ++ s) = exec (Seq (lit w) r) s.
Proof.
  intros H. apply exec_skip. intros i Hi.
  apply matchHere_lit. unfold toLowerCase. rewrite <- skipn_map.
  by apply (indexOf_before _ _ _ H).
Qed.

Lemma star_continues g p k s c x :
  star g p k s c = Some x -> exists s', k s' c = Some x.
Proof.
  induction s as [|a s IH]; destruct g; simpl; intros H.
  - by exists [].
  - destruct (k [] c) eqn:E; [|done]. exists []. congruence.
  - destruct (p a).
    + destruct (star true p k s c) eqn:E.
      * apply IH. congruence.
      * by exists (a :: s).
    + by exists (a :: s).
  - destruct (k (a :: s) c) eqn:E.
    + exists (a :: s). congruence.
    + destruct (p a); [by apply IH|done].
Qed.

(** A match ends in its continuation, and past a group the capture is
    defined. *)
Lemma run_continues r : forall k s c x,
  run r k s c = Some x ->
  exists s' c', k s' c' = Some x /\
    (grouped r = true \/ is_Some c -> is_Some c').
Proof.
  induction r as [|p|r1 IH1 r2 IH2|r1 IH1 r2 IH2|g p|r IH|];
    intros k s c x H; cbn [run grouped] in *.
  - exists s, c. split; [done|]. intros [?|?]; done.
  - destruct s as [|a s]; [done|]. destruct (p a); [|done].
    exists s, c. split; [done|]. intros [?|?]; done.
  - apply IH1 in H as (s1 & c1 & H & Hc1).
    apply IH2 in H as (s2 & c2 & H & Hc2).
    exists s2, c2. split; [done|]. intros [Hg|Hc].
    + apply orb_prop in Hg as [Hg|Hg]; apply Hc2; [right; apply Hc1|]; auto.
    + apply Hc2. right. apply Hc1. auto.
  - destruct (run r1 k s c) eqn:E.
    + injection H as ->. apply IH1 in E as (s1 & c1 & E & Hc1).
      exists s1, c1. split; [done|]. intros [Hg|Hc]; apply Hc1; [|auto].
      apply andb_prop in Hg as [Hg _]. auto.
    + apply IH2 in H as (s2 & c2 & H & Hc2).
      exists s2, c2. split; [done|]. intros [Hg|Hc]; apply Hc2; [|auto].
      apply andb_prop in Hg as [_ Hg]. auto.
  - apply star_continues in H as (s' & H).
    exists s', c. split; [done|]. intros [?|?]; done.
  - apply IH in H as (s' & c' & H & _).
    eexists s', _. split; [exact H|]. intros _. by eexists.
  - destruct s; [|done]. exists [], c. split; [done|]. intros [?|?]; done.
Qed.

(** [m[1]] is defined for every match of a pattern whose paths all pass
    the group. *)
Lemma exec_grouped r s m :
  grouped r = true -> exec r s = Some m -> is_Some m.
Proof.
  intros Hg. induction s as [|a s IH]; cbn [exec]; intros H;
    destruct (matchHere r _) eqn:E.
  - injection H as ->. apply run_continues in E as (s' & c' & E & Hc).
    unfold accept in E. injection E as ->. auto.
  - done.
  - injection H as ->. apply run_continues in E as (s' & c' & E & Hc).
    unfold accept in E. injection E as ->. auto.
  - by apply IH.
Qed.

End RegexFacts.

(** ** Extraction is total *)

Lemma decision_total text : exists d, decision text = Returned d.
Proof.
  unfold decision, decisionMatch.
  destruct (exec decisionPattern text) as [m|] eqn:E; [|by eexists].
  apply exec_grouped in E as [g ->]; [|reflexivity]. by eexists.
Qed.

Lemma reasoning_total text : exists rs, reasoning text = Returned rs.
Proof.
  unfold reasoning, reasoningMatches.
  destruct (exec reasoningPattern text) as [m|] eqn:E; [|by eexists].
  apply exec_grouped in E as [g ->]; [|reflexivity]. by eexists.
Qed.

(** ** The store and the turn *)

Section TurnFacts.

Implicit Types (a : Agent) (w : World) (env : Services) (q : JsString.t).

Lemma deref_new a l :
  deref {| arrays := arrays a ++ [l]; state := state a;
           initialState := initialState a |} (length (arrays a)) = l.
Proof. unfold deref. cbn. by rewrite list_lookup_middle. Qed.

Lemma deref_new_state a l s :
  deref {| arrays := arrays a ++ [l]; state := s;
           initialState := initialState a |} (length (arrays a)) = l.
Proof. unfold deref. cbn. by rewrite list_lookup_middle. Qed.

Lemma filter_absent (id : JsString.t) (l : list IncidentMemory.t) :
  (forall i, i ∈ l -> IncidentMemory.id i <> id) ->
  List.filter (fun i => negb (sameId (IncidentMemory.id i) id)) l = l.
Proof.
  induction l as [|x l IH]; intros H; cbn; [done|].
  unfold sameId at 1. rewrite bool_decide_eq_false_2 by (apply H; by left).
  cbn. f_equal. apply IH. intros i Hi. apply H. by right.
Qed.

Lemma perspective_run env r q w :
  perspective env r q w =
  (Returned (perspectiveOf env r q),
   {| self := self w; trace := trace w ++ perspectiveEvents env r q |}).
Proof.
  unfold perspective, perspectiveOf, perspectiveEvents, tryCatch, bindM,
    emit, await, ret.
  destruct (getPerspective env r q); cbn; by rewrite <- !app_assoc.
Qed.

Lemma stateUpdates_elem tr incidents lastUpdated :
  StateSet incidents lastUpdated ∈ tr ->
  (incidents, lastUpdated) ∈ stateUpdates tr.
Proof.
  intros H. unfold stateUpdates. apply list_elem_of_omap.
  by exists (StateSet incidents lastUpdated).
Qed.

Lemma stateUpdates_app tr1 tr2 :
  stateUpdates (tr1 ++ tr2) = stateUpdates tr1 ++ stateUpdates tr2.
Proof. apply omap_app. Qed.

(** The detached block either stores the finished record in one update,
    or leaves the agent as it was. *)
Lemma storeIncident_cases env q w :
  let store :=
    storeIncident env q (perspectiveOf env ReliabilityAgent q)
      (perspectiveOf env CostAgent q) (perspectiveOf env UXAgent q)
      (contentOf env q) w in
  fst store = Returned tt /\
  ((exists text d rs s,
      synthesisText env (contentOf env q) = Returned text
      /\ decision text = Returned d /\ reasoning text = Returned rs
      /\ summaryText env (summaryContent (draftOf env q d rs)) = Returned s
      /\ snd store =
         {| self :=
              {| arrays := arrays (self w) ++
                   [incidentsOf (self w)
                    ++ [IncidentMemory.setSummary s (draftOf env q d rs)]];
                 state := Some (State.make (length (arrays (self w)))
                                  (storedAt env));
                 initialState := initialState (self w) |};
            trace := trace w ++
              [ SummaryRequested (summaryContent (draftOf env q d rs));
                StateSet (incidentsOf (self w)
                          ++ [IncidentMemory.setSummary s (draftOf env q d rs)])
                  (storedAt env) ] |})
   \/ ((synthesisText env (contentOf env q) = Thrown
        \/ exists text d rs,
             synthesisText env (contentOf env q) = Returned text
             /\ decision text = Returned d /\ reasoning text = Returned rs
             /\ summaryText env (summaryContent (draftOf env q d rs)) = Thrown)
       /\ self (snd store) = self w
       /\ exists evs,
            trace (snd store) = trace w ++ evs /\ stateUpdates evs = [])).
Proof.
  cbn zeta. unfold storeIncident, generateSummary, tryCatch, bindM, emit,
    await, ret, getState, readArray, newArray, setState.
  destruct (synthesisText env (contentOf env q)) as [text|] eqn:Et; cbn.
  2: { split; [done|]. right. split; [by left|]. split; [done|].
       by eexists. }
  destruct (decision_total text) as [d Hd]. rewrite Hd. cbn.
  destruct (reasoning_total text) as [rs Hrs]. rewrite Hrs. cbn.
  fold (draftOf env q d rs).
  destruct (summaryText env (summaryContent (draftOf env q d rs)))
    as [s|] eqn:Es; cbn.
  - split; [done|]. left. exists text, d, rs, s.
    rewrite deref_new_state. repeat split; try done.
    by rewrite <- !app_assoc.
  - split; [done|]. right. split.
    + right. by exists text, d, rs.
    + split; [done|]. eexists. rewrite <- !app_assoc. split; [done|]. done.
Qed.

End TurnFacts.

Section DebateFacts.

Variables (env : Services) (processedMessages : list Message.t).

Let q := userQuestionOf processedMessages.

Hypothesis asked : isDecisionQuestion q = true.

Lemma onChatMessage_debate w :
  onChatMessage env processedMessages w =
  (Returned (Debate (contentOf env q)),
   snd (storeIncident env q (perspectiveOf env ReliabilityAgent q)
          (perspectiveOf env CostAgent q) (perspectiveOf env UXAgent q)
          (contentOf env q)
          {| self := self w; trace := trace w ++ foreground env q |})).
Proof.
  unfold onChatMessage. fold q. rewrite asked.
  unfold bindM at 1. rewrite perspective_run.
  unfold bindM at 1. rewrite perspective_run.
  unfold bindM at 1. rewrite perspective_run.
  unfold bindM, emit, ret. cbn [self trace].
  fold (contentOf env q).
  replace (((((trace w ++ perspectiveEvents env ReliabilityAgent q)
              ++ perspectiveEvents env CostAgent q)
             ++ perspectiveEvents env UXAgent q)
            ++ [SynthesisRequested (contentOf env q)]) ++ [StreamMerged])
    with (trace w ++ foreground env q)
    by (unfold foreground; by rewrite <- !app_assoc).
  pose proof (storeIncident_cases env q
    {| self := self w; trace := trace w ++ foreground env q |}) as [Hr _].
  cbn zeta in Hr. destruct (storeIncident _ _ _ _ _ _ _) as [r w2].
  cbn in Hr. by rewrite Hr.
Qed.

End DebateFacts.

Section TraceFacts.

Variables (env : Services) (processedMessages : list Message.t) (a : Agent).

Let q := userQuestionOf processedMessages.

Hypothesis asked : isDecisionQuestion q = true.

Lemma stateUpdates_foreground : stateUpdates (foreground env q) = [].
Proof.
  unfold foreground, perspectiveEvents.
  by destruct (getPerspective env ReliabilityAgent q),
    (getPerspective env CostAgent q), (getPerspective env UXAgent q).
Qed.

Lemma debate_result :
  resultOf (onChatMessage env processedMessages) a
  = Returned (Debate (contentOf env q)).
Proof.
  unfold resultOf, call. by rewrite onChatMessage_debate.
Qed.

(** The turn after the stream is merged: one update that appends the
    finished record, or nothing. *)
Lemma debate_cases :
  (exists text d rs s,
     synthesisText env (contentOf env q) = Returned text
     /\ decision text = Returned d /\ reasoning text = Returned rs
     /\ summaryText env (summaryContent (draftOf env q d rs)) = Returned s
     /\ traceOf (onChatMessage env processedMessages) a
        = foreground env q ++
          [ SummaryRequested (summaryContent (draftOf env q d rs));
            StateSet (incidentsOf a
                      ++ [IncidentMemory.setSummary s (draftOf env q d rs)])
              (storedAt env) ]
     /\ incidentsOf (agentAfter (onChatMessage env processedMessages) a)
        = incidentsOf a ++ [IncidentMemory.setSummary s (draftOf env q d rs)]
     /\ lastUpdatedOf (agentAfter (onChatMessage env processedMessages) a)
        = storedAt env)
  \/ ((synthesisText env (contentOf env q) = Thrown
       \/ exists text d rs,
            synthesisText env (contentOf env q) = Returned text
            /\ decision text = Returned d /\ reasoning text = Returned rs
            /\ summaryText env (summaryContent (draftOf env q d rs)) = Thrown)
      /\ agentAfter (onChatMessage env processedMessages) a = a
      /\ exists evs,
           traceOf (onChatMessage env processedMessages) a
           = foreground env q ++ evs
           /\ stateUpdates evs = []).
Proof.
  unfold traceOf, agentAfter, call. rewrite onChatMessage_debate by exact asked.
  cbn [snd self trace app]. fold q.
  destruct (storeIncident_cases env q {| self := a; trace := foreground env q |})
    as [_ [(text & d & rs & s & Ht & Hd & Hr & Hs & ->)|(Hf & Hself & evs & Ht & Hu)]].
  - left. exists text, d, rs, s. cbn [self trace].
    repeat split; try done.
    unfold incidentsOf at 1, currentStateOf. cbn. apply deref_new_state.
  - right. split; [exact Hf|]. split; [exact Hself|]. by exists evs.
Qed.

Lemma debate_trace :
  exists evs,
    traceOf (onChatMessage env processedMessages) a = foreground env q ++ evs.
Proof.
  destruct debate_cases
    as [(text & d & rs & s & _ & _ & _ & _ & Ht & _)|(_ & _ & evs & Ht & _)];
    eexists; exact Ht.
Qed.

End TraceFacts.

(** ** Extraction of the decision and the reasoning *)

Lemma entries_app l r :
  entries (l ++ "-"%char :: r) = entries l ++ entries r.
Proof.
  unfold entries. by rewrite splitHyphen_app, filter_app, map_app.
Qed.

Lemma entries_plain s :
  "-"%char ∉ s -> trim s <> [] -> entries s = [trim s].
Proof.
  intros Hs Ht. unfold entries. rewrite splitHyphen_plain by done.
  rewrite filter_cons_True; [done|]. by destruct (trim s).
Qed.

Lemma entries_hyphen_free s e : e ∈ entries s -> "-"%char ∉ e.
Proof.
  unfold entries. intros He Hin.
  apply list_elem_of_In, in_map_iff in He as (p & <- & Hp).
  apply list_elem_of_In, list_elem_of_filter in Hp as [_ Hp].
  apply (splitHyphen_pieces _ _ Hp). by apply trim_subseteq.
Qed.

(** C5: a synthesis text without the marker "Final Recommendation" (in
    any letter case) gets the decision "No clear decision reached"; a
    text without the marker "Why" gets the one-entry fallback reasoning;
    the same holds when only the markers as the patterns spell them,
    "**Final Recommendation:**" and "**Why", are absent; and the
    extraction of either field returns for every text, it never throws. *)
Theorem extraction_fallbacks (text : JsString.t) :
  (includes (str "final recommendation") (toLowerCase text) = false ->
   decision text = Returned (str "No clear decision reached"))
  /\ (includes (str "why") (toLowerCase text) = false ->
      reasoning text = Returned [str "Decision made based on agent perspectives"])
  /\ (includes (str "**final recommendation:**") (toLowerCase text) = false ->
      decision text = Returned (str "No clear decision reached"))
  /\ (includes (str "**why") (toLowerCase text) = false ->
      reasoning text = Returned [str "Decision made based on agent perspectives"])
  /\ (exists d rs, decision text = Returned d /\ reasoning text = Returned rs).
Proof.
  assert (includes (str "**final recommendation:**") (toLowerCase text) = false ->
          decision text = Returned (str "No clear decision reached")) as Hd.
  { intros H. unfold decision, decisionMatch, decisionPattern. cbn [seq].
    rewrite exec_absent; [reflexivity|exact H]. }
  assert (includes (str "**why") (toLowerCase text) = false ->
          reasoning text
          = Returned [str "Decision made based on agent perspectives"]) as Hr.
  { intros H. unfold reasoning, reasoningMatches, reasoningPattern. cbn [seq].
    rewrite exec_absent; [reflexivity|exact H]. }
  split; [|split; [|split; [exact Hd|split; [exact Hr|]]]].
  - intros H. apply Hd.
    destruct (includes (str "**final recommendation:**") _) eqn:E; [|done].
    change (str "**final recommendation:**")
      with (str "**" ++ str "final recommendation" ++ str ":**") in E.
    apply includes_inner in E. congruence.
  - intros H. apply Hr.
    destruct (includes (str "**why") _) eqn:E; [|done].
    change (str "**why") with (str "**" ++ str "why" ++ []) in E.
    apply includes_inner in E. congruence.
  - destruct (decision_total text) as [d Hd'].
    destruct (reasoning_total text) as [rs Hrs]. by exists d, rs.
Qed.

Lemma extraction_fallbacks_witness :
  decision (str "Keep the current build.")
    = Returned (str "No clear decision reached")
  /\ reasoning (str "Keep the current build.")
    = Returned [str "Decision made based on agent perspectives"].
Proof.
  destruct (extraction_fallbacks (str "Keep the current build."))
    as (Hd & Hr & _ & _ & _).
  split; [apply Hd; reflexivity|apply Hr; reflexivity].
Defined.

Lemma decision_of_block tail :
  exec decisionPattern (exampleBlock ++ tail) = Some (Some (str "Roll back.")).
Proof.
  apply exec_here. unfold matchHere.
  cbv -[length Nat.sub take]. do 2 f_equal.
  apply (take_consumed (str "Roll back.")).
Qed.

Lemma reasoning_of_block ws rest :
  forallb isSpace ws = true ->
  rest = [] \/ startsWith (str "**") rest = true ->
  exec reasoningPattern ((whyPart ++ ws) ++ rest) = Some (Some (whyBody ++ ws)).
Proof.
  intros Hws Hrest. apply exec_here.
  unfold matchHere, reasoningPattern. cbn [seq].
  change ((whyPart ++ ws) ++ rest)
    with (str "**Why" ++ ":"%char :: str "**" ++ (whyBody ++ ws) ++ rest).
  change (run (Seq ?r1 ?r2) ?k) with (run r1 (run r2 k)).
  rewrite run_lit_here.
  change (run (Seq ?r1 ?r2) ?k) with (run r1 (run r2 k)).
  cbn [run star]. rewrite run_lit.
  change (startsWithCi (str "**") (":"%char :: _)) with false.
  change (isDot ":") with true. cbv iota.
  apply star_lazy_here.
  change (run (Seq ?r1 ?r2) ?k) with (run r1 (run r2 k)).
  rewrite run_lit_here.
  change (run (Seq ?r1 ?r2) ?k) with (run r1 (run r2 k)).
  apply (capture_until_bold (whyBody ++ ws) rest); [|exact Hrest].
  intros Hin. apply elem_of_app in Hin as [Hin|Hin].
  - vm_compute in Hin.
    repeat (apply elem_of_cons in Hin as [Hin|Hin]; [discriminate|]).
    by apply elem_of_nil in Hin.
  - apply list_elem_of_In in Hin.
    by apply (proj1 (forallb_forall _ _) Hws) in Hin.
Qed.

Lemma bullets_of_body ws :
  forallb isSpace ws = true -> bullets (whyBody ++ ws) = [str "A"; str "B"].
Proof.
  intros Hws. unfold bullets.
  change (whyBody ++ ws)
    with ([LF] ++ "-"%char :: (str " A" ++ [LF]) ++ "-"%char :: (str " B" ++ ws)).
  assert (trim (str " B" ++ ws) = str "B") as Ht.
  { unfold trim. change (trimStart (str " B" ++ ws)) with (str "B" ++ ws).
    by rewrite trimEnd_spaces. }
  rewrite !entries_app, (entries_plain (str " B" ++ ws)).
  - by rewrite Ht.
  - intros Hin. apply elem_of_app in Hin as [Hin|Hin].
    + vm_compute in Hin.
      repeat (apply elem_of_cons in Hin as [Hin|Hin]; [discriminate|]).
      by apply elem_of_nil in Hin.
    + apply list_elem_of_In in Hin.
      by apply (proj1 (forallb_forall _ _) Hws) in Hin.
  - by rewrite Ht.
Qed.

(** C4, as the code has it: when the block's own markers are the first
    occurrences of "**Final Recommendation:**" and of "**Why" in the
    text (in any letter case), and only white space follows the block up
    to the end of the text or up to the next "**", the decision is
    "Roll back." and the reasoning is A, B. *)
Theorem extraction_of_block (pre ws rest : JsString.t) :
  let text := pre ++ exampleBlock ++ ws ++ rest in
  indexOf (str "**final recommendation:**") (toLowerCase text)
    = Some (length pre) ->
  indexOf (str "**why") (toLowerCase text)
    = Some (length (pre ++ recommendationPart)) ->
  forallb isSpace ws = true ->
  rest = [] \/ startsWith (str "**") rest = true ->
  decision text = Returned (str "Roll back.")
  /\ reasoning text = Returned [str "A"; str "B"].
Proof.
  intros text Hd Hw Hws Hrest. subst text. split.
  - unfold decision, decisionMatch, decisionPattern. cbn [seq].
    rewrite exec_first_occurrence by exact Hd.
    fold (seq [Star true isSpace; Group (plus false isDot); Alt (lit [LF]) Eos]).
    change (exec _ (exampleBlock ++ ws ++ rest))
      with (exec decisionPattern (exampleBlock ++ ws ++ rest)).
    by rewrite decision_of_block.
  - unfold reasoning, reasoningMatches.
    replace (pre ++ exampleBlock ++ ws ++ rest)
      with ((pre ++ recommendationPart) ++ (whyPart ++ ws) ++ rest) in *
      by (unfold exampleBlock; by rewrite <- !app_assoc).
    unfold reasoningPattern at 1. cbn [seq].
    rewrite exec_first_occurrence by exact Hw.
    change (exec _ ((whyPart ++ ws) ++ rest))
      with (exec reasoningPattern ((whyPart ++ ws) ++ rest)).
    rewrite reasoning_of_block by done. cbn [member bind].
    by rewrite bullets_of_body.
Qed.

Lemma extraction_of_block_witness :
  decision (perspectivesPart ++ exampleBlock ++ [LF; LF] ++ str "**Confidence:** high")
    = Returned (str "Roll back.")
  /\ reasoning (perspectivesPart ++ exampleBlock ++ [LF; LF] ++ str "**Confidence:** high")
     = Returned [str "A"; str "B"].
Proof.
  apply (extraction_of_block perspectivesPart [LF; LF]
           (str "**Confidence:** high")); try reflexivity.
  right. reflexivity.
Defined.

(** C4 as stated fails: text after the block is read into the reasoning,
    and a marker before the block takes the decision. *)
Lemma extraction_reads_past_block :
  reasoning (exampleBlock ++ [LF] ++ str "- C")
    = Returned [str "A"; str "B"; str "C"]
  /\ reasoning (exampleBlock ++ [LF] ++ str "- C")
    <> Returned [str "A"; str "B"]
  /\ decision (str "**Final Recommendation:** Hold." ++ [LF] ++ exampleBlock)
    = Returned (str "Hold.").
Proof.
  split; [reflexivity|]. split; [|reflexivity].
  intros H. vm_compute in H. discriminate.
Qed.

(** C10 as stated fails: a hyphenated entry is not always split into
    separate reasoning entries, because only the first three pieces are
    kept.  After two bullets the "Why" block keeps "low" of "low-cost
    fix" and drops "cost fix"; after three bullets it keeps nothing of
    that entry. *)
Lemma hyphenated_entry_beyond_the_third :
  reasoningMatches (str "**Why:**" ++ [LF] ++ str "- a" ++ [LF] ++ str "- b"
                    ++ [LF] ++ str "- low-cost fix")
    = Some (Some ([LF] ++ str "- a" ++ [LF] ++ str "- b"
                  ++ [LF] ++ str "- low-cost fix"))
  /\ reasoning (str "**Why:**" ++ [LF] ++ str "- a" ++ [LF] ++ str "- b"
                ++ [LF] ++ str "- low-cost fix")
    = Returned [str "a"; str "b"; str "low"]
  /\ reasoningMatches (str "**Why:**" ++ [LF] ++ str "- a" ++ [LF] ++ str "- b"
                       ++ [LF] ++ str "- c" ++ [LF] ++ str "- low-cost fix")
    = Some (Some ([LF] ++ str "- a" ++ [LF] ++ str "- b"
                  ++ [LF] ++ str "- c" ++ [LF] ++ str "- low-cost fix"))
  /\ reasoning (str "**Why:**" ++ [LF] ++ str "- a" ++ [LF] ++ str "- b"
                ++ [LF] ++ str "- c" ++ [LF] ++ str "- low-cost fix")
    = Returned [str "a"; str "b"; str "c"].
Proof. repeat split; reflexivity. Qed.

(** C10, as the code has it: the "Why" block is cut at every hyphen, not
    only at bullets, and the reasoning is the first three of the trimmed
    non-blank pieces: for a block [l ++ "-" ++ r], whatever stands
    around the hyphen, it is the first three of the entries of [l]
    followed by the entries of [r], so the pieces of a hyphenated word
    are separate entries as far as they are among the first three; no
    reasoning entry contains a hyphen, so a hyphenated word never stays
    whole; and prose before the first hyphen that is not blank is,
    trimmed, the first entry. *)
Theorem reasoning_cut_at_every_hyphen (text block : JsString.t) :
  reasoningMatches text = Some (Some block) ->
  (forall l r, block = l ++ "-"%char :: r ->
     reasoning text = Returned (take 3 (entries l ++ entries r)))
  /\ (forall e, e ∈ bullets block -> "-"%char ∉ e)
  /\ (forall prose rest,
        block = prose ++ "-"%char :: rest ->
        "-"%char ∉ prose -> trim prose <> [] ->
        reasoning text = Returned (trim prose :: take 2 (entries rest))).
Proof.
  intros Hm. unfold reasoning. rewrite Hm. cbn [member bind].
  split; [|split].
  - intros l r ->. unfold bullets. by rewrite entries_app.
  - intros e He. unfold bullets in He.
    apply elem_of_take in He as (i & He & _).
    apply list_elem_of_lookup_2 in He. by apply entries_hyphen_free in He.
  - intros prose rest -> Hp Ht. unfold bullets.
    by rewrite entries_app, (entries_plain prose).
Qed.

Lemma reasoning_cut_at_every_hyphen_witness :
  reasoning (str "**Why:**" ++ [LF] ++ str "- low-cost fix" ++ [LF] ++ str "- B")
  = Returned [str "low"; str "cost fix"; str "B"].
Proof.
  pose proof (reasoning_cut_at_every_hyphen
    (str "**Why:**" ++ [LF] ++ str "- low-cost fix" ++ [LF] ++ str "- B")
    ([LF] ++ str "- low-cost fix" ++ [LF] ++ str "- B")
    eq_refl) as (H & _ & _).
  exact (H ([LF] ++ str "- low") (str "cost fix" ++ [LF] ++ str "- B") eq_refl).
Defined.

(** ** Metrics *)

(** C2 as stated fails: in "error rate is 6.5%" the number does not
    follow "error rate" after colons and white space only, so the
    question of the example yields the latency alone. *)
Lemma metrics_of_example_question :
  metricsSnapshot (str "error rate is 6.5%, p95 latency: 120ms")
    = Some {[ "latency"%string := Num 120 ]}
  /\ metricsSnapshot (str "error rate is 6.5%, p95 latency: 120ms")
    <> Some (<[ "errorRate"%string := Num (13 # 2) ]>
               {[ "latency"%string := Num 120 ]}).
Proof.
  assert (metricsSnapshot (str "error rate is 6.5%, p95 latency: 120ms")
            = Some {[ "latency"%string := Num 120 ]}) as E
    by (vm_compute; reflexivity).
  split; [exact E|]. rewrite E. intros H.
  apply (f_equal (fun o : option (gmap string number) =>
                    m ← o; m !! "errorRate"%string)) in H.
  vm_compute in H. discriminate.
Qed.

(** C2, as the code has it: with the number right after "error rate:",
    the question yields errorRate 6.5 and latency 120; a question that
    matches neither pattern yields no snapshot; and the record of a turn
    carries the snapshot of its question. *)
Theorem metrics_extraction :
  metricsSnapshot (str "error rate: 6.5%, p95 latency: 120ms")
    = Some (<[ "errorRate"%string := Num (13 # 2) ]>
              {[ "latency"%string := Num 120 ]})
  /\ (forall userQuestion : JsString.t,
        exec errorRatePattern userQuestion = None ->
        exec latencyPattern userQuestion = None ->
        metricsSnapshot userQuestion = None)
  /\ (forall env userQuestion d rs s,
        IncidentMemory.metricsSnapshot
          (IncidentMemory.setSummary s (draftOf env userQuestion d rs))
        = metricsSnapshot userQuestion).
Proof.
  split; [|split].
  - vm_compute; reflexivity.
  - intros q He Hl. unfold metricsSnapshot. rewrite He, Hl. reflexivity.
  - reflexivity.
Qed.

Lemma metrics_extraction_witness :
  metricsSnapshot (str "Should we deploy on Friday?") = None.
Proof.
  exact (proj1 (proj2 metrics_extraction) (str "Should we deploy on Friday?")
           eq_refl eq_refl).
Defined.

(** ** The classifier *)

Lemma keywords_lowered keyword :
  keyword ∈ decisionKeywords -> toLowerCase keyword = keyword.
Proof.
  unfold decisionKeywords. cbn [map]. intros H.
  repeat (apply elem_of_cons in H as [->|H]; [reflexivity|]).
  by apply elem_of_nil in H.
Qed.

Lemma includes_lowered keyword text :
  includes (toLowerCase keyword) (toLowerCase text) = true <->
  occursIgnoringCase keyword text.
Proof.
  split.
  - intros H. apply includes_inv in H as (p & q & H).
    unfold toLowerCase in H.
    apply map_eq_app in H as (pre & rest & -> & <- & H).
    apply map_eq_app in H as (mid & post & -> & H & <-).
    by exists pre, mid, post.
  - intros (pre & mid & post & -> & H).
    rewrite !toLowerCase_app, H. apply includes_intro.
Qed.

Lemma codeUnits_all (c : ascii) : In c codeUnits.
Proof.
  unfold codeUnits. rewrite <- (ascii_nat_embedding c).
  apply in_map, in_seq. pose proof (nat_ascii_bounded c). lia.
Qed.

(** On a small letter or a space, being the same letter is what
    lowering the other code unit tests: checked on every pair. *)
Lemma sameLetter_lower (c k : ascii) :
  smallOrSpace k = true -> sameLetter c k = Ascii.eqb (lower c) k.
Proof.
  assert (forallb (fun c => forallb (fun k =>
            implb (smallOrSpace k)
                  (Bool.eqb (sameLetter c k) (Ascii.eqb (lower c) k)))
            codeUnits) codeUnits = true) as H by (vm_compute; reflexivity).
  rewrite forallb_forall in H. specialize (H c (codeUnits_all c)).
  rewrite forallb_forall in H. specialize (H k (codeUnits_all k)).
  intros Hk. rewrite Hk in H. by apply Bool.eqb_prop in H.
Qed.

Lemma keywords_small keyword :
  keyword ∈ decisionKeywords -> Forall (fun k => smallOrSpace k = true) keyword.
Proof.
  unfold decisionKeywords. cbn [map]. intros H.
  repeat (apply elem_of_cons in H as [->|H];
          [repeat constructor|]).
  by apply elem_of_nil in H.
Qed.

Lemma sameLetter_toLowerCase (mid keyword : JsString.t) :
  Forall (fun k => smallOrSpace k = true) keyword ->
  Forall2 (fun c k => sameLetter c k = true) mid keyword
  <-> toLowerCase mid = keyword.
Proof.
  intros Hk. revert mid. induction Hk as [|k keyword Hs _ IH]; intros mid.
  - split.
    + intros H. by inversion H.
    + destruct mid; [constructor|discriminate].
  - split.
    + intros H. inversion H as [|c ? mid' ? Hc Hm]; subst. cbn.
      rewrite (sameLetter_lower c k Hs) in Hc.
      apply Ascii.eqb_eq in Hc as ->. f_equal. by apply IH.
    + destruct mid as [|c mid']; [discriminate|]. cbn. intros [= Hc Hm].
      constructor; [|by apply IH].
      rewrite (sameLetter_lower c k Hs). by apply Ascii.eqb_eq.
Qed.

Lemma occursUpToCase_lowered keyword text :
  keyword ∈ decisionKeywords ->
  occursUpToCase keyword text <-> occursIgnoringCase keyword text.
Proof.
  intros Hin. unfold occursUpToCase, occursIgnoringCase.
  rewrite (keywords_lowered keyword Hin).
  split; intros (pre & mid & post & -> & H); exists pre, mid, post;
    (split; [reflexivity|]);
    by apply (sameLetter_toLowerCase mid keyword (keywords_small keyword Hin)).
Qed.

(** C7: the classifier answers true exactly for the texts that contain
    one of the seven keywords as a case-insensitive substring (a piece
    of the text that agrees with the keyword letter by letter, capitals
    and small letters taken as the same), false for every other text,
    and false for the empty text and for a missing one. *)
Theorem classifier_matches_keywords :
  decisionKeywords
    = map str [ "rollback"; "deploy"; "hotfix"; "launch"; "release";
                "should we"; "decision" ]%string
  /\ (forall text : JsString.t,
        isDecisionQuestion text = true <->
        exists keyword,
          keyword ∈ decisionKeywords /\ occursUpToCase keyword text)
  /\ (forall text : JsString.t,
        isDecisionQuestion text = false <->
        forall keyword,
          keyword ∈ decisionKeywords -> ~ occursUpToCase keyword text)
  /\ isDecisionQuestion [] = false
  /\ isDecisionQuestion (userQuestionOf []) = false
  /\ (forall (history : list Message.t) (lastMessage : Message.t),
        Message.parts lastMessage = None ->
        isDecisionQuestion (userQuestionOf (history ++ [lastMessage])) = false)
  /\ (forall (history : list Message.t) (parts : list Part.t),
        (forall p, p ∈ parts -> Part.text p = None) ->
        isDecisionQuestion
          (userQuestionOf (history ++ [Message.make (Some parts)])) = false).
Proof.
  assert (forall text : JsString.t,
            isDecisionQuestion text = true <->
            exists keyword,
              keyword ∈ decisionKeywords /\ occursUpToCase keyword text) as Hc.
  { intros text. unfold isDecisionQuestion. rewrite existsb_exists. split.
    - intros (keyword & Hin & H). exists keyword.
      apply list_elem_of_In in Hin. split; [done|].
      apply occursUpToCase_lowered; [done|].
      apply includes_lowered. by rewrite keywords_lowered.
    - intros (keyword & Hin & H). exists keyword.
      split; [by apply list_elem_of_In|].
      apply occursUpToCase_lowered in H; [|done].
      apply includes_lowered in H. by rewrite keywords_lowered in H. }
  split; [reflexivity|]. split; [exact Hc|].
  split; [|split; [reflexivity|split; [reflexivity|split]]].
  - intros text. rewrite <- not_true_iff_false, Hc. split.
    + intros H keyword Hin Ho. apply H. by exists keyword.
    + intros H (keyword & Hin & Ho). by apply (H keyword).
  - intros history lastMessage H. unfold userQuestionOf.
    rewrite last_snoc. cbn. by rewrite H.
  - intros history parts H. unfold userQuestionOf.
    rewrite last_snoc. cbn.
    destruct (List.find _ parts) as [p|] eqn:E; [|reflexivity].
    apply find_some in E as [Hin _]. apply list_elem_of_In in Hin.
    cbn. by rewrite (H p Hin).
Qed.

Lemma classifier_matches_keywords_witness :
  isDecisionQuestion (str "ROLLBACK now") = true
  /\ isDecisionQuestion (str "Any HotFix?") = true
  /\ isDecisionQuestion (str "What's the weather?") = false.
Proof.
  destruct classifier_matches_keywords as (_ & H & _).
  split; [|split].
  - apply H. exists (str "rollback"). split.
    + unfold decisionKeywords. cbn [map]. left.
    + exists [], (str "ROLLBACK"), (str " now"). split; [reflexivity|].
      repeat constructor.
  - apply H. exists (str "hotfix"). split.
    + unfold decisionKeywords. cbn [map]. do 2 right. left.
    + exists (str "Any "), (str "HotFix"), (str "?"). split; [reflexivity|].
      repeat constructor.
  - reflexivity.
Defined.

(** ** The incident store *)

(** C8: [deleteIncident] always answers success with the requested id;
    the stored sequence becomes the old one without the records of that
    id, the others in their order, and [lastUpdated] becomes the current
    instant; when no record has the id the sequence is the same. *)
Theorem deleteIncident_idempotent (a : Agent) (now : instant) (id : JsString.t) :
  let a' := agentAfter (deleteIncident now id) a in
  resultOf (deleteIncident now id) a
    = Returned {| success := true; deletedId := id |}
  /\ lastUpdatedOf a' = now
  /\ (forall i, i ∈ incidentsOf a' -> IncidentMemory.id i <> id)
  /\ (forall before x after,
        incidentsOf a = before ++ x :: after ->
        IncidentMemory.id x = id ->
        (forall i, i ∈ before ++ after -> IncidentMemory.id i <> id) ->
        incidentsOf a' = before ++ after)
  /\ ((forall i, i ∈ incidentsOf a -> IncidentMemory.id i <> id) ->
      incidentsOf a' = incidentsOf a).
Proof.
  cbn zeta.
  assert (incidentsOf (agentAfter (deleteIncident now id) a)
          = List.filter (fun i => negb (sameId (IncidentMemory.id i) id))
              (incidentsOf a)) as E.
  { unfold agentAfter, incidentsOf, currentStateOf, call. cbn.
    apply deref_new_state. }
  rewrite !E. split; [done|]. split; [done|]. split; [|split].
  - intros i Hi. apply list_elem_of_In, filter_In in Hi as [_ Hi].
    unfold sameId in Hi. apply negb_true_iff, bool_decide_eq_false in Hi. done.
  - intros before x after -> Hx Hrest.
    rewrite List.filter_app. cbn [List.filter].
    unfold sameId at 2. rewrite bool_decide_eq_true_2 by done. cbn [negb].
    rewrite <- List.filter_app. by apply filter_absent.
  - apply filter_absent.
Qed.

Lemma deleteIncident_idempotent_witness :
  incidentsOf (agentAfter (deleteIncident 99 (str "missing"))
                 (agentWith [sampleIncident "a" 10; sampleIncident "b" 20] 7))
  = [sampleIncident "a" 10; sampleIncident "b" 20]
  /\ incidentsOf (agentAfter (deleteIncident 99 (str "a"))
                    (agentWith [sampleIncident "a" 10; sampleIncident "b" 20] 7))
     = [] ++ [sampleIncident "b" 20].
Proof.
  split.
  - apply (deleteIncident_idempotent
             (agentWith [sampleIncident "a" 10; sampleIncident "b" 20] 7)
             99%Z (str "missing")).
    intros i Hi. vm_compute in Hi.
    apply elem_of_cons in Hi as [->|Hi]; [discriminate|].
    apply elem_of_cons in Hi as [->|Hi]; [discriminate|].
    by apply elem_of_nil in Hi.
  - apply (deleteIncident_idempotent
             (agentWith [sampleIncident "a" 10; sampleIncident "b" 20] 7)
             99%Z (str "a")) with (x := sampleIncident "a" 10).
    + reflexivity.
    + reflexivity.
    + intros i Hi. apply list_elem_of_singleton in Hi as ->. discriminate.
Defined.

(** With a query, [getIncidents] filters into a fresh array and sorts
    that one: the state keeps its sequence. *)
Lemma getIncidents_query_keeps_state (a : Agent) (query : JsString.t) :
  State.incidents (currentStateOf a) < length (arrays a) ->
  truthy query = true ->
  incidentsOf (agentAfter (getIncidents (Some query)) a) = incidentsOf a
  /\ lastUpdatedOf (agentAfter (getIncidents (Some query)) a) = lastUpdatedOf a.
Proof.
  intros Hwf Hq. unfold agentAfter, call, getIncidents, bindM, getState,
    readArray, newArray, updateArray, ret. cbn. rewrite Hq. cbn.
  split; [|done]. unfold incidentsOf, currentStateOf, deref. cbn.
  unfold currentStateOf in Hwf.
  rewrite list_lookup_insert_ne by lia.
  by rewrite lookup_app_l.
Qed.

(** Without a query the array sorted in place is the one the state
    refers to: the stored sequence becomes its sorted version. *)
Lemma getIncidents_sorts_state_in_place (a : Agent) :
  incidentsOf (agentAfter (getIncidents None) a)
  = sortNewestFirst (incidentsOf a)
  /\ resultOf (getIncidents None) a
     = Returned (State.incidents (currentStateOf a)).
Proof.
  split; [|reflexivity].
  unfold agentAfter, incidentsOf, call, getIncidents, bindM, getState,
    updateArray, ret. cbn. unfold deref, currentStateOf. cbn.
  destruct (arrays a !! State.incidents (default (initialState a) (state a)))
    as [l|] eqn:E.
  - rewrite list_lookup_insert_eq; [done|]. by apply lookup_lt_Some in E.
  - rewrite list_insert_ge; [by rewrite E|]. by apply lookup_ge_None in E.
Qed.

(** C3 fails on the code: without a query the array that is sorted in
    place is the array of the state, so a call reorders the stored
    incidents (older first becomes newer first); [lastUpdated] stays. *)
Theorem getIncidents_reorders_state :
  let a := agentWith [sampleIncident "a" 10; sampleIncident "b" 20] 7 in
  let a' := agentAfter (getIncidents None) a in
  incidentsOf a = [sampleIncident "a" 10; sampleIncident "b" 20]
  /\ incidentsOf a' = [sampleIncident "b" 20; sampleIncident "a" 10]
  /\ incidentsOf a' <> incidentsOf a
  /\ resultOf (getIncidents None) a = Returned (State.incidents (currentStateOf a))
  /\ lastUpdatedOf a' = lastUpdatedOf a.
Proof.
  cbn zeta. split; [reflexivity|]. split; [reflexivity|].
  split; [|split; reflexivity].
  intros H. vm_compute in H. discriminate.
Qed.

(** ** The debate turn *)

(** C1 as stated fails: the sample turn makes one state update, and the
    record it appends already carries its summary; no update holds the
    record without one. *)
Lemma summary_set_before_append :
  stateUpdates
    (traceOf (onChatMessage sampleServices sampleMessages) (newAgent 5))
  = [ ([ IncidentMemory.setSummary (str "Rolled back the release.")
           (draftOf sampleServices sampleQuestion (str "Roll back.")
              [str "A"; str "B"]) ], 2000%Z) ]
  /\ ~ summaryAttachedLater
         (stateUpdates
            (traceOf (onChatMessage sampleServices sampleMessages)
               (newAgent 5))).
Proof.
  assert (stateUpdates
            (traceOf (onChatMessage sampleServices sampleMessages) (newAgent 5))
          = [ ([ IncidentMemory.setSummary (str "Rolled back the release.")
                   (draftOf sampleServices sampleQuestion (str "Roll back.")
                      [str "A"; str "B"]) ], 2000%Z) ]) as E
    by (vm_compute; reflexivity).
  split; [exact E|]. rewrite E.
  intros (i & j & first & second & r1 & r2 & Hij & _ & Hj & _).
  apply lookup_lt_Some in Hj. cbn in Hj. lia.
Qed.

(** C1, as the code has it: a turn on a decision question makes at most
    one state update.  When the synthesis text and the summary arrive,
    the summary is requested first and the one update appends the record
    with its id and with the summary already set; when the summary
    request fails, nothing is stored. *)
Theorem incident_stored_once_with_summary
    (env : Services) (processedMessages : list Message.t) (a : Agent) :
  let q := userQuestionOf processedMessages in
  let turn := onChatMessage env processedMessages in
  isDecisionQuestion q = true ->
  length (stateUpdates (traceOf turn a)) <= 1
  /\ (forall text d rs s,
        synthesisText env (contentOf env q) = Returned text ->
        decision text = Returned d -> reasoning text = Returned rs ->
        summaryText env (summaryContent (draftOf env q d rs)) = Returned s ->
        let record := IncidentMemory.setSummary s (draftOf env q d rs) in
        traceOf turn a
        = foreground env q ++
          [ SummaryRequested (summaryContent (draftOf env q d rs));
            StateSet (incidentsOf a ++ [record]) (storedAt env) ]
        /\ stateUpdates (traceOf turn a)
           = [ (incidentsOf a ++ [record], storedAt env) ]
        /\ incidentsOf (agentAfter turn a) = incidentsOf a ++ [record]
        /\ lastUpdatedOf (agentAfter turn a) = storedAt env
        /\ IncidentMemory.summary record = Some s
        /\ IncidentMemory.id record = generateId env)
  /\ (forall text d rs,
        synthesisText env (contentOf env q) = Returned text ->
        decision text = Returned d -> reasoning text = Returned rs ->
        summaryText env (summaryContent (draftOf env q d rs)) = Thrown ->
        stateUpdates (traceOf turn a) = [] /\ agentAfter turn a = a)
  /\ (synthesisText env (contentOf env q) = Thrown ->
      stateUpdates (traceOf turn a) = [] /\ agentAfter turn a = a).
Proof.
  cbn zeta. intros Hq.
  pose proof (stateUpdates_foreground env processedMessages) as Hfg.
  destruct (debate_cases env processedMessages a Hq)
    as [(text & d & rs & s & Ht & Hd & Hr & Hs & Htr & Hinc & Hlu)
       |(Hf & Hself & evs & Htr & Hu)].
  - assert (stateUpdates (traceOf (onChatMessage env processedMessages) a)
            = [ (incidentsOf a
                 ++ [IncidentMemory.setSummary s
                       (draftOf env (userQuestionOf processedMessages) d rs)],
                 storedAt env) ]) as Hup
      by (rewrite Htr, stateUpdates_app, Hfg; reflexivity).
    split; [rewrite Hup; cbn; lia|]. split; [|split].
    + intros text' d' rs' s' Ht' Hd' Hr' Hs'.
      rewrite Ht in Ht'. injection Ht' as <-.
      rewrite Hd in Hd'. injection Hd' as <-.
      rewrite Hr in Hr'. injection Hr' as <-.
      rewrite Hs in Hs'. injection Hs' as <-.
      repeat split; done.
    + intros text' d' rs' Ht' Hd' Hr' Hs'.
      rewrite Ht in Ht'. injection Ht' as <-.
      rewrite Hd in Hd'. injection Hd' as <-.
      rewrite Hr in Hr'. injection Hr' as <-.
      congruence.
    + congruence.
  - assert (stateUpdates (traceOf (onChatMessage env processedMessages) a) = [])
      as Hup by (rewrite Htr, stateUpdates_app, Hfg, Hu; reflexivity).
    split; [rewrite Hup; cbn; lia|]. split; [|split].
    + intros text d rs s Ht Hd Hr Hs. exfalso.
      destruct Hf as [Hf|(text' & d' & rs' & Ht' & Hd' & Hr' & Hs')].
      * congruence.
      * rewrite Ht in Ht'. injection Ht' as <-.
        rewrite Hd in Hd'. injection Hd' as <-.
        rewrite Hr in Hr'. injection Hr' as <-. congruence.
    + intros. by split.
    + intros. by split.
Qed.

Lemma incident_stored_once_with_summary_witness :
  incidentsOf (agentAfter (onChatMessage sampleServices sampleMessages)
                 (newAgent 5))
  = incidentsOf (newAgent 5)
    ++ [ IncidentMemory.setSummary (str "Rolled back the release.")
           (draftOf sampleServices sampleQuestion (str "Roll back.")
              [str "A"; str "B"]) ].
Proof.
  destruct (incident_stored_once_with_summary sampleServices sampleMessages
              (newAgent 5) eq_refl) as (_ & H & _).
  destruct (H (perspectivesPart ++ exampleBlock) (str "Roll back.")
              [str "A"; str "B"] (str "Rolled back the release.")
              eq_refl eq_refl eq_refl eq_refl) as (_ & _ & Hinc & _).
  exact Hinc.
Defined.

(** C6: when one perspective agent throws and the other two answer, the
    turn still answers with the synthesis, requested over the two real
    perspectives and the fallback string of the failed role (the three
    fallback strings differ, each names its role); all three agents are
    called and the two that answer settle with their answers; and the
    record the turn stores has the same three hypotheses. *)
Theorem one_failed_perspective
    (env : Services) (processedMessages : list Message.t) (a : Agent)
    (failed : Role) (answer : Role -> JsString.t) :
  let q := userQuestionOf processedMessages in
  let turn := onChatMessage env processedMessages in
  let held r := if bool_decide (r = failed) then unavailable r else answer r in
  let content :=
    synthesisContent q (held ReliabilityAgent) (held CostAgent) (held UXAgent) in
  isDecisionQuestion q = true ->
  getPerspective env failed q = Thrown ->
  (forall r, r <> failed -> getPerspective env r q = Returned (answer r)) ->
  resultOf turn a = Returned (Debate content)
  /\ (forall r r', unavailable r = unavailable r' -> r = r')
  /\ SynthesisRequested content ∈ traceOf turn a
  /\ (forall r, Dispatched r q ∈ traceOf turn a)
  /\ (forall r, r <> failed -> Settled r (Returned (answer r)) ∈ traceOf turn a)
  /\ (forall incidents lastUpdated,
        StateSet incidents lastUpdated ∈ traceOf turn a ->
        exists record,
          incidents = incidentsOf a ++ [record]
          /\ IncidentMemory.hypotheses record
             = Hypotheses.make (held ReliabilityAgent) (held CostAgent)
                 (held UXAgent))
  /\ (forall text d rs s,
        synthesisText env content = Returned text ->
        decision text = Returned d -> reasoning text = Returned rs ->
        summaryText env (summaryContent (draftOf env q d rs)) = Returned s ->
        exists record,
          incidentsOf (agentAfter turn a) = incidentsOf a ++ [record]
          /\ IncidentMemory.hypotheses record
             = Hypotheses.make (held ReliabilityAgent) (held CostAgent)
                 (held UXAgent)).
Proof.
  intros q turn held content Hq Hfail Hok. subst turn.
  assert (forall r, perspectiveOf env r q = held r) as Hheld.
  { intros r. unfold perspectiveOf, held. case_bool_decide as Hr.
    - subst r. by rewrite Hfail.
    - by rewrite (Hok r Hr). }
  assert (contentOf env q = content) as Hcontent
    by (unfold contentOf, content; by rewrite !Hheld).
  assert (forall d rs s,
            IncidentMemory.hypotheses
              (IncidentMemory.setSummary s (draftOf env q d rs))
            = Hypotheses.make (held ReliabilityAgent) (held CostAgent)
                (held UXAgent)) as Hhyp
    by (intros; cbn; by rewrite !Hheld).
  clearbody content held. subst content.
  pose proof (stateUpdates_foreground env processedMessages) as Hfg.
  destruct (debate_trace env processedMessages a Hq) as [evs Htr].
  fold q in Htr, Hfg.
  pose proof (debate_cases env processedMessages a Hq) as Hcases.
  fold q in Hcases.
  split; [by apply debate_result|].
  split; [|split; [|split; [|split; [|split]]]].
  - intros [] []; first [reflexivity|intros H; vm_compute in H; discriminate].
  - rewrite Htr. unfold foreground. rewrite !elem_of_app. left.
    do 3 right. by left.
  - intros r. rewrite Htr. unfold foreground, perspectiveEvents.
    rewrite !elem_of_app. left.
    destruct r; [left|right; left|do 2 right; left]; left; by left.
  - intros r Hr. rewrite Htr. unfold foreground, perspectiveEvents.
    rewrite !elem_of_app. left.
    destruct r; [left|right; left|do 2 right; left]; left;
      rewrite Hok by done; right; by left.
  - intros incidents lastUpdated Hin.
    destruct Hcases
      as [(text & d & rs & s & _ & _ & _ & _ & Ht & _)|(_ & _ & evs' & Ht & Hu)];
      rewrite Ht in Hin; apply elem_of_app in Hin as [Hin|Hin].
    + apply stateUpdates_elem in Hin. rewrite Hfg in Hin.
      by apply elem_of_nil in Hin.
    + apply elem_of_cons in Hin as [Hin|Hin]; [done|].
      apply list_elem_of_singleton in Hin. injection Hin as -> _.
      eexists. split; [done|]. apply Hhyp.
    + apply stateUpdates_elem in Hin. rewrite Hfg in Hin.
      by apply elem_of_nil in Hin.
    + apply stateUpdates_elem in Hin. rewrite Hu in Hin.
      by apply elem_of_nil in Hin.
  - intros text d rs s Ht Hd Hr Hs.
    destruct Hcases
      as [(text' & d' & rs' & s' & Ht' & Hd' & Hr' & Hs' & _ & Hinc & _)
         |(Hf & _)].
    + eexists. split; [exact Hinc|]. apply Hhyp.
    + exfalso. destruct Hf as [Hf|(text' & d' & rs' & Ht' & Hd' & Hr' & Hs')].
      * congruence.
      * rewrite Ht in Ht'. injection Ht' as <-.
        rewrite Hd in Hd'. injection Hd' as <-.
        rewrite Hr in Hr'. injection Hr' as <-. congruence.
Qed.

Lemma one_failed_perspective_witness :
  resultOf (onChatMessage (without CostAgent sampleServices) sampleMessages)
    (newAgent 5)
  = Returned (Debate (synthesisContent sampleQuestion (str "Roll back now.")
                        (str "Cost Agent unavailable.")
                        (str "Users are hurting."))).
Proof.
  destruct (one_failed_perspective (without CostAgent sampleServices)
              sampleMessages (newAgent 5) CostAgent
              (fun r => match r with
                        | ReliabilityAgent => str "Roll back now."
                        | CostAgent => str "A rollback is cheap."
                        | UXAgent => str "Users are hurting."
                        end)
              eq_refl eq_refl) as (H & _).
  - intros r Hr. destruct r; [reflexivity|contradiction|reflexivity].
  - exact H.
Defined.

(** C9 as stated fails: in the sample turn the reliability call has
    settled (position 1) before the cost call is dispatched
    (position 2). *)
Lemma cost_dispatched_after_reliability_settled :
  traceOf (onChatMessage sampleServices sampleMessages) (newAgent 5) !! 1
    = Some (Settled ReliabilityAgent (Returned (str "Roll back now.")))
  /\ traceOf (onChatMessage sampleServices sampleMessages) (newAgent 5) !! 2
    = Some (Dispatched CostAgent sampleQuestion)
  /\ ~ dispatchedTogether
         (traceOf (onChatMessage sampleServices sampleMessages) (newAgent 5)).
Proof.
  assert (traceOf (onChatMessage sampleServices sampleMessages) (newAgent 5) !! 1
          = Some (Settled ReliabilityAgent (Returned (str "Roll back now."))))
    as H1 by (vm_compute; reflexivity).
  assert (traceOf (onChatMessage sampleServices sampleMessages) (newAgent 5) !! 2
          = Some (Dispatched CostAgent sampleQuestion))
    as H2 by (vm_compute; reflexivity).
  split; [exact H1|]. split; [exact H2|].
  intros H. specialize (H 2 1 _ _ _ _ H2 H1). lia.
Qed.

Ltac at_positions i j :=
  exists i, j; split; [lia|split; reflexivity].

(** C9, as the code has it: the three perspective calls run one after
    another, in the order reliability, cost, UX.  Each call is dispatched
    and settled (with the error logged when it threw) before the next is
    dispatched, and all three have settled before the synthesis is
    requested. *)
Theorem perspectives_dispatched_in_sequence
    (env : Services) (processedMessages : list Message.t) (a : Agent) :
  let q := userQuestionOf processedMessages in
  let tr := traceOf (onChatMessage env processedMessages) a in
  isDecisionQuestion q = true ->
  (exists rest,
     tr = perspectiveEvents env ReliabilityAgent q
          ++ perspectiveEvents env CostAgent q
          ++ perspectiveEvents env UXAgent q
          ++ SynthesisRequested (contentOf env q) :: rest)
  /\ (exists i j,
        i < j
        /\ tr !! i = Some (Settled ReliabilityAgent
                             (getPerspective env ReliabilityAgent q))
        /\ tr !! j = Some (Dispatched CostAgent q))
  /\ (exists i j,
        i < j
        /\ tr !! i = Some (Settled CostAgent (getPerspective env CostAgent q))
        /\ tr !! j = Some (Dispatched UXAgent q))
  /\ (exists i j,
        i < j
        /\ tr !! i = Some (Settled UXAgent (getPerspective env UXAgent q))
        /\ tr !! j = Some (SynthesisRequested (contentOf env q))).
Proof.
  intros q tr Hq. subst tr.
  destruct (debate_trace env processedMessages a Hq) as [evs ->]. fold q.
  unfold foreground. split.
  - exists (StreamMerged :: evs). by rewrite <- !app_assoc.
  - unfold perspectiveEvents.
    destruct (getPerspective env ReliabilityAgent q),
      (getPerspective env CostAgent q), (getPerspective env UXAgent q);
      cbn [app]; (split; [|split]).
    all: first
      [ at_positions 1 2 | at_positions 1 3
      | at_positions 3 4 | at_positions 3 5 | at_positions 4 5
      | at_positions 4 6 | at_positions 5 6 | at_positions 5 7
      | at_positions 6 7 | at_positions 6 8 | at_positions 7 8
      | at_positions 7 9 ].
Qed.

Lemma perspectives_dispatched_in_sequence_witness :
  exists rest,
    traceOf (onChatMessage sampleServices sampleMessages) (newAgent 5)
    = perspectiveEvents sampleServices ReliabilityAgent sampleQuestion
      ++ perspectiveEvents sampleServices CostAgent sampleQuestion
      ++ perspectiveEvents sampleServices UXAgent sampleQuestion
      ++ SynthesisRequested (contentOf sampleServices sampleQuestion) :: rest.
Proof.
  exact (proj1 (perspectives_dispatched_in_sequence sampleServices
                  sampleMessages (newAgent 5) eq_refl)).
Defined.

(** * Further properties of the code *)

(** ** What the matcher consumes and captures *)

Section MatcherSoundness.

Implicit Types (r : Regex.t) (k : cont) (s u : JsString.t) (c : captures).

Lemma star_consumes g p k s c x :
  star g p k s c = Some x ->
  exists u s', s = u ++ s' /\ forallb p u = true /\ k s' c = Some x.
Proof.
  induction s as [|a s IH]; destruct g; cbn [star]; intros H.
  - by exists [], [].
  - destruct (k [] c) eqn:E; [|done]. exists [], []. by rewrite E.
  - destruct (p a) eqn:Ha; [|by exists [], (a :: s)].
    destruct (star true p k s c) eqn:E; [|by exists [], (a :: s)].
    injection H as ->. destruct (IH eq_refl) as (u & s' & -> & Hu & Hk).
    exists (a :: u), s'. cbn. by rewrite Ha, Hu.
  - destruct (k (a :: s) c) eqn:E.
    { exists [], (a :: s). by rewrite E. }
    destruct (p a) eqn:Ha; [|done].
    destruct (IH H) as (u & s' & -> & Hu & Hk).
    exists (a :: u), s'. cbn. by rewrite Ha, Hu.
Qed.

Lemma groupsAll_True r : groupsAll (fun _ => True) r.
Proof. induction r; cbn; auto. Qed.

(** A successful run splits the input into what the pattern consumed and
    what its continuation received; the capture is left as it was or set
    to a string the group may consume. *)
Lemma run_consumes r : forall (P : JsString.t -> Prop) k s c x,
  groupsAll P r ->
  run r k s c = Some x ->
  exists u s' c',
    s = u ++ s' /\ denote r u /\ k s' c' = Some x
    /\ (c' = c \/ exists g, c' = Some g /\ P g)
    /\ (grouped r = true -> exists g, c' = Some g /\ P g).
Proof.
  induction r as [|p|r1 IH1 r2 IH2|r1 IH1 r2 IH2|g p|r IH|];
    intros P k s c x HP H; cbn [run grouped denote groupsAll] in *.
  - exists [], s, c. repeat split; auto. done.
  - destruct s as [|a s]; [done|]. destruct (p a) eqn:Ha; [|done].
    exists [a], s, c. repeat split; eauto. done.
  - destruct HP as [HP1 HP2].
    apply (IH1 P) in H as (u1 & s1 & c1 & -> & Hd1 & H & Hc1 & Hg1); [|done].
    apply (IH2 P) in H as (u2 & s2 & c2 & -> & Hd2 & H & Hc2 & Hg2); [|done].
    exists (u1 ++ u2), s2, c2. rewrite <- app_assoc.
    split; [done|]. split; [by exists u1, u2|]. split; [done|]. split.
    + destruct Hc2 as [->|?]; auto.
    + intros Hg. apply orb_prop in Hg as [Hg|Hg]; [|auto].
      destruct Hc2 as [->|?]; auto.
  - destruct HP as [HP1 HP2]. destruct (run r1 k s c) eqn:E.
    + injection H as ->.
      apply (IH1 P) in E as (u & s' & c' & -> & Hd & H & Hc & Hg); [|done].
      exists u, s', c'. repeat split; auto.
      intros G. apply andb_prop in G as [G _]. auto.
    + apply (IH2 P) in H as (u & s' & c' & -> & Hd & H & Hc & Hg); [|done].
      exists u, s', c'. repeat split; auto.
      intros G. apply andb_prop in G as [_ G]. auto.
  - apply star_consumes in H as (u & s' & -> & Hu & H).
    exists u, s', c. repeat split; auto. done.
  - apply (IH (fun _ => True)) in H as (u & s' & c' & -> & Hd & H & _);
      [|apply groupsAll_True].
    rewrite take_consumed in H.
    exists u, s', (Some u). repeat split; eauto.
  - destruct s; [|done]. exists [], [], c. repeat split; auto. done.
Qed.

(** The group of a match holds a string its sub-pattern may consume. *)
Lemma exec_captures (P : JsString.t -> Prop) r s m :
  groupsAll P r -> grouped r = true ->
  exec r s = Some m -> exists g, m = Some g /\ P g.
Proof.
  intros HP Hg. induction s as [|a s IH]; cbn [exec]; intros H;
    destruct (matchHere r _) eqn:E.
  - injection H as ->.
    apply (run_consumes r P) in E as (u & s' & c' & _ & _ & E & _ & Hc); [|done].
    unfold accept in E. injection E as ->. auto.
  - done.
  - injection H as ->.
    apply (run_consumes r P) in E as (u & s' & c' & _ & _ & E & _ & Hc); [|done].
    unfold accept in E. injection E as ->. auto.
  - by apply IH.
Qed.

End MatcherSoundness.

(** ** Trimming *)

Section TrimFacts.

Implicit Types (s : JsString.t).

Lemma trimStart_head s c : head (trimStart s) = Some c -> isSpace c = false.
Proof.
  induction s as [|a s IH]; cbn [trimStart]; [done|].
  destruct (isSpace a) eqn:E; [done|]. cbn. by intros [= <-].
Qed.

Lemma trimStart_suffix s : exists ws, s = ws ++ trimStart s /\ forallb isSpace ws = true.
Proof.
  induction s as [|a s (ws & IH & Hws)]; cbn [trimStart]; [by exists []|].
  destruct (isSpace a) eqn:E.
  - exists (a :: ws). cbn. rewrite E, Hws. by rewrite IH at 1.
  - by exists [].
Qed.

Lemma trimEnd_prefix s : exists ws, s = trimEnd s ++ ws /\ forallb isSpace ws = true.
Proof.
  unfold trimEnd. destruct (trimStart_suffix (reverse s)) as (ws & E & Hws).
  exists (reverse ws). split.
  - rewrite <- reverse_app, <- E. by rewrite reverse_involutive.
  - apply forallb_forall. intros x Hx. apply list_elem_of_In in Hx.
    rewrite elem_of_reverse in Hx. apply list_elem_of_In in Hx.
    by apply (proj1 (forallb_forall _ _) Hws).
Qed.

Lemma trimEnd_last s c : last (trimEnd s) = Some c -> isSpace c = false.
Proof.
  unfold trimEnd. rewrite last_reverse. apply trimStart_head.
Qed.

Lemma trim_trimmed s : trimmed (trim s).
Proof.
  unfold trimmed, trim. split; [|apply trimEnd_last].
  intros c Hc.
  destruct (trimEnd_prefix (trimStart s)) as (ws & E & _).
  apply (trimStart_head s). rewrite E.
  destruct (trimEnd (trimStart s)); [done|]. exact Hc.
Qed.

End TrimFacts.

(** ** The extracted fields *)

Lemma isDot_line (s : JsString.t) :
  forallb isDot s = true -> (LF ∉ s) /\ (CR ∉ s).
Proof.
  intros H. split; intros Hin; apply list_elem_of_In in Hin;
    apply (proj1 (forallb_forall _ _) H) in Hin; discriminate.
Qed.

Lemma decision_group (g : JsString.t) :
  denote (plus false isDot) g -> forallb isDot g = true.
Proof.
  intros (u1 & u2 & -> & (a & -> & Ha) & Hu2). cbn. by rewrite Ha.
Qed.

(** X1: the decision kept for a record is one line without white space
    at its ends: it contains no line feed and no carriage return, for
    every synthesis text. *)
Theorem decision_is_one_trimmed_line (text d : JsString.t) :
  decision text = Returned d ->
  (LF ∉ d) /\ (CR ∉ d) /\ trimmed d.
Proof.
  unfold decision, decisionMatch. intros H.
  destruct (exec decisionPattern text) as [m|] eqn:E.
  - apply (exec_captures (fun g => forallb isDot g = true)) in E
      as (g & -> & Hg); [| |reflexivity].
    + cbn in H. injection H as <-.
      destruct (isDot_line g Hg) as [HLF HCR].
      split; [|split; [|apply trim_trimmed]];
        intros Hin; apply trim_subseteq in Hin; auto.
    + unfold decisionPattern. cbn [seq groupsAll lit].
      repeat split; auto. apply decision_group.
  - injection H as <-. change noDecision with (trim noDecision).
    split; [|split; [|apply trim_trimmed]];
      intros Hin; vm_compute in Hin;
      repeat (apply elem_of_cons in Hin as [Hin|Hin]; [discriminate|]);
      by apply elem_of_nil in Hin.
Qed.

Lemma decision_is_one_trimmed_line_witness :
  (LF ∉ str "Hold.") /\ (CR ∉ str "Hold.") /\ trimmed (str "Hold.").
Proof.
  exact (decision_is_one_trimmed_line
           (str "**FINAL RECOMMENDATION:**   Hold.  " ++ [LF] ++ str "More.")
           (str "Hold.") eq_refl).
Defined.

(** X2: the reasoning kept for a record has at most three entries; each
    entry is non-empty, has no white space at its ends and contains no
    hyphen. The list can be empty: a "Why" block of blanks gives no
    entry at all. *)
Theorem reasoning_entries_are_clean (text : JsString.t) (rs : list JsString.t) :
  reasoning text = Returned rs ->
  length rs <= 3
  /\ (forall e, e ∈ rs -> e <> [] /\ trimmed e /\ ("-"%char ∉ e))
  /\ reasoning (str "**Why:**" ++ [LF] ++ str " - " ++ [LF]) = Returned [].
Proof.
  unfold reasoning, reasoningMatches. intros H.
  split; [|split; [|reflexivity]].
  - destruct (exec reasoningPattern text) as [[g|]|]; cbn in H; try done;
      injection H as <-; [|cbn; lia].
    unfold bullets. rewrite length_take. lia.
  - intros e He.
    destruct (exec reasoningPattern text) as [[g|]|]; cbn in H; try done;
      injection H as <-.
    + assert (e ∈ entries g) as Hin.
      { unfold bullets in He. apply elem_of_take in He as (i & He & _).
        by apply list_elem_of_lookup_2 in He. }
      split; [|split; [|by apply (entries_hyphen_free g)]].
      * unfold entries in Hin.
        apply list_elem_of_In, in_map_iff in Hin as (p & <- & Hp).
        apply list_elem_of_In, list_elem_of_filter in Hp as [Hp _].
        by destruct (trim p).
      * unfold entries in Hin.
        apply list_elem_of_In, in_map_iff in Hin as (p & <- & _).
        apply trim_trimmed.
    + apply list_elem_of_singleton in He as ->.
      split; [done|]. split.
      * change (str "Decision made based on agent perspectives")
          with (trim (str "Decision made based on agent perspectives")).
        apply trim_trimmed.
      * intros Hin. vm_compute in Hin.
        repeat (apply elem_of_cons in Hin as [Hin|Hin]; [discriminate|]).
        by apply elem_of_nil in Hin.
Qed.

Lemma reasoning_entries_are_clean_witness :
  length [str "low"; str "cost fix"; str "B"] <= 3.
Proof.
  exact (proj1 (reasoning_entries_are_clean
           (str "**Why:**" ++ [LF] ++ str "- low-cost fix" ++ [LF]
            ++ str "- B - C")
           [str "low"; str "cost fix"; str "B"] eq_refl)).
Defined.

(** ** The metrics snapshot *)










(** ** Searching the incidents *)

Section SearchFacts.

Implicit Types (i x y : IncidentMemory.t) (l : list IncidentMemory.t)
  (q : JsString.t).





Lemma insertByTime_perm x l : insertByTime x l ≡ₚ x :: l.
Proof.
  induction l as [|y l IH]; cbn [insertByTime]; [done|].
  destruct (_ <? _)%Z; [|done]. rewrite IH. apply Permutation_swap.
Qed.

Lemma insertByTime_elem x y l : y ∈ insertByTime x l -> y = x \/ y ∈ l.
Proof.
  intros H. rewrite insertByTime_perm in H. by apply elem_of_cons in H.
Qed.

Lemma insertByTime_sorted x l :
  StronglySorted notOlder l -> StronglySorted notOlder (insertByTime x l).
Proof.
  induction 1 as [|y l Hl IH Hy]; cbn [insertByTime].
  - repeat constructor.
  - destruct (_ <? _)%Z eqn:E.
    + constructor; [exact IH|]. apply Forall_forall. intros z Hz.
      apply insertByTime_elem in Hz as [->|Hz].
      * unfold notOlder. apply Z.ltb_lt in E. lia.
      * by apply (proj1 (Forall_forall _ _) Hy).
    + apply Z.ltb_ge in E. constructor; [by constructor|].
      constructor; [exact E|]. apply Forall_forall. intros z Hz.
      apply (proj1 (Forall_forall _ _) Hy) in Hz. unfold notOlder in *. lia.
Qed.

Lemma insertByTime_stable (t : instant) x l :
  List.filter (fun i => (IncidentMemory.timestamp i =? t)%Z) (insertByTime x l)
  = List.filter (fun i => (IncidentMemory.timestamp i =? t)%Z) (x :: l).
Proof.
  induction l as [|y l IH]; cbn [insertByTime]; [done|].
  destruct (_ <? _)%Z eqn:E; [|done]. apply Z.ltb_lt in E.
  cbn [List.filter] in *. rewrite IH.
  destruct (IncidentMemory.timestamp y =? t)%Z eqn:Ey;
    destruct (IncidentMemory.timestamp x =? t)%Z eqn:Ex; try done.
  apply Z.eqb_eq in Ey, Ex. lia.
Qed.

Lemma insertByTime_head x l :
  StronglySorted notOlder (x :: l) -> insertByTime x l = x :: l.
Proof.
  intros H. destruct l as [|y l]; cbn [insertByTime]; [done|].
  apply StronglySorted_inv in H as [_ H].
  apply Forall_inv in H. unfold notOlder in H.
  destruct (_ <? _)%Z eqn:E; [|done]. apply Z.ltb_lt in E. lia.
Qed.

Lemma sortNewestFirst_fixed l :
  StronglySorted notOlder l -> sortNewestFirst l = l.
Proof.
  induction 1 as [|y l Hl IH Hy]; cbn; [done|].
  unfold sortNewestFirst in IH. rewrite IH.
  apply insertByTime_head. by constructor.
Qed.

Lemma sortNewestFirst_sorted l : StronglySorted notOlder (sortNewestFirst l).
Proof.
  induction l as [|x l IH]; cbn; [constructor|]. by apply insertByTime_sorted.
Qed.

Lemma sortNewestFirst_perm l : sortNewestFirst l ≡ₚ l.
Proof.
  induction l as [|x l IH]; cbn; [done|].
  rewrite insertByTime_perm. apply perm_skip, IH.
Qed.

(** X5: the sort of [getIncidents] returns the same incidents, newest
    first; incidents of one instant keep the order they had; and sorting
    a sorted sequence changes nothing. *)
Theorem sortNewestFirst_sorts l :
  sortNewestFirst l ≡ₚ l
  /\ StronglySorted notOlder (sortNewestFirst l)
  /\ (forall t : instant,
        List.filter (fun i => (IncidentMemory.timestamp i =? t)%Z)
          (sortNewestFirst l)
        = List.filter (fun i => (IncidentMemory.timestamp i =? t)%Z) l)
  /\ sortNewestFirst (sortNewestFirst l) = sortNewestFirst l.
Proof.
  split; [apply sortNewestFirst_perm|].
  split; [apply sortNewestFirst_sorted|]. split.
  - intros t. induction l as [|x l IH]; [done|].
    cbn [sortNewestFirst foldr]. rewrite insertByTime_stable.
    cbn [List.filter]. unfold sortNewestFirst in IH. by rewrite IH.
  - apply sortNewestFirst_fixed, sortNewestFirst_sorted.
Qed.

End SearchFacts.

Section GetIncidentsFacts.

Implicit Types (a : Agent) (q : JsString.t).

(** The sequence behind the reference a call returned. *)
Lemma getIncidents_found_query a q :
  q <> [] ->
  exists found,
    resultOf (getIncidents (Some q)) a = Returned found
    /\ found = length (arrays a)
    /\ deref (agentAfter (getIncidents (Some q)) a) found
       = sortNewestFirst
           (List.filter (mentions (toLowerCase q)) (incidentsOf a)).
Proof.
  intros Hq. destruct q as [|c q]; [done|]. eexists. split; [reflexivity|].
  split; [reflexivity|].
  unfold agentAfter, call, getIncidents, bindM, getState, readArray, newArray,
    updateArray, ret. cbn [truthy self snd fst arrays].
  unfold deref at 1. cbn [arrays].
  rewrite list_lookup_insert_eq by (rewrite length_app; cbn; lia).
  cbn [default]. by rewrite deref_new.
Qed.

Lemma getIncidents_found_plain a query :
  query = None \/ query = Some [] ->
  resultOf (getIncidents query) a = Returned (State.incidents (currentStateOf a))
  /\ incidentsOf (agentAfter (getIncidents query) a)
     = sortNewestFirst (incidentsOf a)
  /\ lastUpdatedOf (agentAfter (getIncidents query) a) = lastUpdatedOf a
  /\ traceOf (getIncidents query) a = []
  /\ (wellFormed a -> wellFormed (agentAfter (getIncidents query) a)).
Proof.
  intros [->| ->].
  - split; [reflexivity|]. split; [apply getIncidents_sorts_state_in_place|].
    split; [reflexivity|]. split; [reflexivity|].
    unfold wellFormed, agentAfter, call. cbn. by rewrite length_insert.
  - split; [reflexivity|]. split; [apply getIncidents_sorts_state_in_place|].
    split; [reflexivity|]. split; [reflexivity|].
    unfold wellFormed, agentAfter, call. cbn. by rewrite length_insert.
Qed.

Lemma getIncidents_kept_query a q :
  q <> [] -> wellFormed a ->
  incidentsOf (agentAfter (getIncidents (Some q)) a) = incidentsOf a
  /\ lastUpdatedOf (agentAfter (getIncidents (Some q)) a) = lastUpdatedOf a
  /\ traceOf (getIncidents (Some q)) a = []
  /\ wellFormed (agentAfter (getIncidents (Some q)) a).
Proof.
  intros Hq Hwf. destruct q as [|c q]; [done|].
  destruct (getIncidents_query_keeps_state a (c :: q) Hwf eq_refl) as [Hi Hl].
  split; [exact Hi|]. split; [exact Hl|]. split; [reflexivity|].
  unfold wellFormed, agentAfter, call in *. cbn.
  rewrite length_insert, length_app. cbn. unfold currentStateOf in Hwf. lia.
Qed.

(** X6: a search with a non-empty query returns a fresh array, not the
    one of the state. It holds exactly the stored incidents that pass
    the filter on the lowered query, newest first; the stored sequence
    and [lastUpdated] stay as they were and no state update is made. *)
Theorem getIncidents_finds_matching a q :
  q <> [] -> wellFormed a ->
  exists found,
    resultOf (getIncidents (Some q)) a = Returned found
    /\ found <> State.incidents (currentStateOf a)
    /\ (forall i,
          i ∈ deref (agentAfter (getIncidents (Some q)) a) found <->
          i ∈ incidentsOf a /\ mentions (toLowerCase q) i = true)
    /\ StronglySorted notOlder
         (deref (agentAfter (getIncidents (Some q)) a) found)
    /\ incidentsOf (agentAfter (getIncidents (Some q)) a) = incidentsOf a
    /\ lastUpdatedOf (agentAfter (getIncidents (Some q)) a) = lastUpdatedOf a
    /\ traceOf (getIncidents (Some q)) a = [].
Proof.
  intros Hq Hwf.
  destruct (getIncidents_found_query a q Hq) as (found & Hr & Hn & Hf).
  destruct (getIncidents_kept_query a q Hq Hwf) as (Hi & Hl & Ht & _).
  exists found. rewrite Hf.
  split; [exact Hr|]. split; [unfold wellFormed in Hwf; lia|].
  split; [|split; [apply sortNewestFirst_sorted|done]].
  intros i. rewrite sortNewestFirst_perm, !list_elem_of_In, filter_In.
  reflexivity.
Qed.

Lemma getIncidents_finds_matching_witness :
  exists found,
    resultOf (getIncidents (Some (str "DEPLOY")))
      (agentWith [sampleIncident "a" 10; sampleIncident "b" 20] 7)
    = Returned found
    /\ found <> 1.
Proof.
  destruct (getIncidents_finds_matching
              (agentWith [sampleIncident "a" 10; sampleIncident "b" 20] 7)
              (str "DEPLOY")) as (found & Hr & Hn & _).
  - discriminate.
  - unfold wellFormed. cbn. lia.
  - exists found. split; [exact Hr|exact Hn].
Defined.

(** X7: whatever the query, a call of [getIncidents] keeps the stored
    incidents as a collection (none lost, none added, none changed),
    keeps [lastUpdated] and makes no state update; and a second call
    with the same query leaves the stored sequence as the first call
    left it. *)
Theorem getIncidents_keeps_collection a (query : option JsString.t) :
  wellFormed a ->
  let a1 := agentAfter (getIncidents query) a in
  let a2 := agentAfter (getIncidents query) a1 in
  incidentsOf a1 ≡ₚ incidentsOf a
  /\ lastUpdatedOf a1 = lastUpdatedOf a
  /\ traceOf (getIncidents query) a = []
  /\ incidentsOf a2 = incidentsOf a1.
Proof.
  intros Hwf a1 a2. subst a1 a2.
  destruct query as [[|c q]|].
  - destruct (getIncidents_found_plain a (Some []) (or_intror eq_refl))
      as (_ & Hi & Hl & Ht & _).
    destruct (getIncidents_found_plain
                (agentAfter (getIncidents (Some [])) a) (Some [])
                (or_intror eq_refl)) as (_ & Hi2 & _).
    rewrite Hi2, Hi. split; [apply sortNewestFirst_perm|].
    split; [done|]. split; [done|].
    apply sortNewestFirst_fixed, sortNewestFirst_sorted.
  - destruct (getIncidents_kept_query a (c :: q)) as (Hi & Hl & Ht & Hwf1);
      [done|done|].
    destruct (getIncidents_kept_query
                (agentAfter (getIncidents (Some (c :: q))) a) (c :: q))
      as (Hi2 & _); [done|done|].
    by rewrite Hi2, Hi.
  - destruct (getIncidents_found_plain a None (or_introl eq_refl))
      as (_ & Hi & Hl & Ht & _).
    destruct (getIncidents_found_plain
                (agentAfter (getIncidents None) a) None
                (or_introl eq_refl)) as (_ & Hi2 & _).
    rewrite Hi2, Hi. split; [apply sortNewestFirst_perm|].
    split; [done|]. split; [done|].
    apply sortNewestFirst_fixed, sortNewestFirst_sorted.
Qed.

Lemma getIncidents_keeps_collection_witness :
  incidentsOf (agentAfter (getIncidents None)
                 (agentWith [sampleIncident "a" 10; sampleIncident "b" 20] 7))
  ≡ₚ [sampleIncident "a" 10; sampleIncident "b" 20].
Proof.
  apply (getIncidents_keeps_collection
           (agentWith [sampleIncident "a" 10; sampleIncident "b" 20] 7) None).
  unfold wellFormed. cbn. lia.
Defined.

End GetIncidentsFacts.

(** ** Deleting and storing *)

Section StoreFacts.

Implicit Types (a : Agent) (id : JsString.t) (l : list IncidentMemory.t).

Lemma deleteIncident_effect a (now : instant) id :
  resultOf (deleteIncident now id) a
    = Returned {| success := true; deletedId := id |}
  /\ incidentsOf (agentAfter (deleteIncident now id) a)
     = others id (incidentsOf a)
  /\ lastUpdatedOf (agentAfter (deleteIncident now id) a) = now
  /\ traceOf (deleteIncident now id) a
     = [StateSet (others id (incidentsOf a)) now].
Proof.
  split; [reflexivity|]. split; [|split; [reflexivity|]].
  - unfold agentAfter, incidentsOf, currentStateOf, call. cbn.
    apply deref_new_state.
  - unfold traceOf, call, deleteIncident, bindM, getState, readArray,
      newArray, setState, ret. cbn. by rewrite deref_new.
Qed.

Lemma others_elem id l i :
  i ∈ others id l <-> i ∈ l /\ IncidentMemory.id i <> id.
Proof.
  unfold others. rewrite !list_elem_of_In, filter_In, negb_true_iff.
  unfold sameId. by rewrite bool_decide_eq_false.
Qed.

Lemma others_again id l : others id (others id l) = others id l.
Proof.
  apply filter_absent. intros i Hi. by apply others_elem in Hi as [_ Hi].
Qed.

Lemma others_swap id1 id2 l :
  others id1 (others id2 l) = others id2 (others id1 l).
Proof.
  unfold others. induction l as [|x l IH]; [done|]. cbn [List.filter].
  destruct (negb (sameId (IncidentMemory.id x) id2)) eqn:E2;
    destruct (negb (sameId (IncidentMemory.id x) id1)) eqn:E1;
    cbn [List.filter]; rewrite ?E1, ?E2, IH; done.
Qed.

Lemma others_app id l1 l2 : others id (l1 ++ l2) = others id l1 ++ others id l2.
Proof. apply List.filter_app. Qed.

Lemma others_ids id l : id ∉ ids (others id l).
Proof.
  intros H. apply list_elem_of_In, in_map_iff in H as (i & Hi & Hin).
  apply list_elem_of_In, others_elem in Hin as [_ Hin]. done.
Qed.

Lemma others_NoDup id l : NoDup (ids l) -> NoDup (ids (others id l)).
Proof.
  unfold ids, others. induction l as [|x l IH]; cbn; [done|].
  intros H. apply NoDup_cons in H as [Hx Hl].
  destruct (negb _); cbn; [|by apply IH].
  apply NoDup_cons. split; [|by apply IH].
  intros Hin. apply Hx.
  apply list_elem_of_In, in_map_iff in Hin as (i & Hi & Hin).
  apply filter_In in Hin as [Hin _].
  apply list_elem_of_In, in_map_iff. by exists i.
Qed.

(** X8: deletions compose as removals. Deleting an id a second time
    changes nothing more and still answers success; deleting two ids in
    either order leaves the same sequence; and after a deletion no
    record carries the id, whatever was stored. *)
Theorem deleteIncident_composes a (t1 t2 : instant) id1 id2 :
  let once := agentAfter (deleteIncident t1 id1) a in
  let twice := agentAfter (deleteIncident t2 id1) once in
  incidentsOf twice = incidentsOf once
  /\ resultOf (deleteIncident t2 id1) once
     = Returned {| success := true; deletedId := id1 |}
  /\ lastUpdatedOf twice = t2
  /\ incidentsOf (agentAfter (deleteIncident t2 id2) once)
     = incidentsOf (agentAfter (deleteIncident t2 id1)
                      (agentAfter (deleteIncident t1 id2) a))
  /\ (id1 ∉ ids (incidentsOf once))
  /\ incidentsOf once `sublist_of` incidentsOf a.
Proof.
  intros once twice. subst once twice.
  destruct (deleteIncident_effect a t1 id1) as (_ & E1 & _).
  destruct (deleteIncident_effect (agentAfter (deleteIncident t1 id1) a) t2 id1)
    as (R2 & E2 & L2 & _).
  destruct (deleteIncident_effect (agentAfter (deleteIncident t1 id1) a) t2 id2)
    as (_ & E3 & _).
  destruct (deleteIncident_effect a t1 id2) as (_ & E4 & _).
  destruct (deleteIncident_effect (agentAfter (deleteIncident t1 id2) a) t2 id1)
    as (_ & E5 & _).
  rewrite E2, E3, E5, E4, E1.
  split; [apply others_again|]. split; [exact R2|]. split; [exact L2|].
  split; [apply others_swap|]. split; [apply others_ids|].
  unfold others. clear. induction (incidentsOf a) as [|x l IH]; cbn; [done|].
  destruct (negb _); [by apply sublist_skip|by apply sublist_cons].
Qed.

End StoreFacts.

(** ** Every outcome of a turn *)

Section TurnOutcomes.

Variables (env : Services) (processedMessages : list Message.t) (a : Agent).

Let q := userQuestionOf processedMessages.

Let turn := onChatMessage env processedMessages.

Lemma onChatMessage_chat :
  isDecisionQuestion q = false ->
  call turn a
  = (Returned Chat, {| self := a; trace := [ChatRequested; StreamMerged] |}).
Proof.
  intros H. unfold turn, call, onChatMessage. fold q. by rewrite H.
Qed.

(** The three ways a debate turn ends. *)
Lemma debate_outcomes :
  isDecisionQuestion q = true ->
  (exists text d rs s,
     synthesisText env (contentOf env q) = Returned text
     /\ decision text = Returned d /\ reasoning text = Returned rs
     /\ summaryText env (summaryContent (draftOf env q d rs)) = Returned s
     /\ traceOf turn a
        = foreground env q ++
          [ SummaryRequested (summaryContent (draftOf env q d rs));
            StateSet (incidentsOf a
                      ++ [IncidentMemory.setSummary s (draftOf env q d rs)])
              (storedAt env) ]
     /\ incidentsOf (agentAfter turn a)
        = incidentsOf a ++ [IncidentMemory.setSummary s (draftOf env q d rs)]
     /\ lastUpdatedOf (agentAfter turn a) = storedAt env)
  \/ (synthesisText env (contentOf env q) = Thrown
      /\ agentAfter turn a = a
      /\ traceOf turn a = foreground env q ++ [storingFailed])
  \/ (exists text d rs,
        synthesisText env (contentOf env q) = Returned text
        /\ decision text = Returned d /\ reasoning text = Returned rs
        /\ summaryText env (summaryContent (draftOf env q d rs)) = Thrown
        /\ agentAfter turn a = a
        /\ traceOf turn a
           = foreground env q ++
             [ SummaryRequested (summaryContent (draftOf env q d rs));
               storingFailed ]).
Proof.
  intros Hq.
  destruct (debate_cases env processedMessages a Hq)
    as [(text & d & rs & s & H)|(Hf & Hself & _)];
    [left; by exists text, d, rs, s|].
  right. fold q turn in Hself.
  assert (traceOf turn a
          = trace (snd (storeIncident env q
                          (perspectiveOf env ReliabilityAgent q)
                          (perspectiveOf env CostAgent q)
                          (perspectiveOf env UXAgent q) (contentOf env q)
                          {| self := a; trace := foreground env q |}))) as Ht.
  { unfold traceOf, call, turn. by rewrite onChatMessage_debate. }
  rewrite Ht. clear Ht.
  unfold storeIncident, generateSummary, tryCatch, bindM, emit, await, ret.
  destruct Hf as [Hf|(text & d & rs & Hs & Hd & Hr & Hf)].
  - fold q in Hf. left. by rewrite Hf.
  - fold q in Hs, Hf. right. exists text, d, rs.
    rewrite Hs, Hd, Hr. cbn [fst snd self trace].
    fold (draftOf env q d rs). rewrite Hf. cbn [fst snd self trace].
    by rewrite <- !app_assoc.
Qed.

End TurnOutcomes.

Lemma reasoning_at_most_three (text : JsString.t) rs :
  reasoning text = Returned rs -> length rs <= 3.
Proof.
  unfold reasoning. destruct (reasoningMatches text) as [[g|]|]; cbn;
    intros H; try discriminate H; injection H as <-.
  - unfold bullets. rewrite length_take. lia.
  - cbn. lia.
Qed.

(** What a turn leaves in the store: one finished record more, or the
    agent as it was. *)
Lemma turn_effect (env : Services) (processedMessages : list Message.t)
    (a : Agent) :
  (exists text d rs s,
     isDecisionQuestion (userQuestionOf processedMessages) = true
     /\ reasoning text = Returned rs
     /\ incidentsOf (agentAfter (onChatMessage env processedMessages) a)
        = incidentsOf a
          ++ [IncidentMemory.setSummary s
                (draftOf env (userQuestionOf processedMessages) d rs)]
     /\ lastUpdatedOf (agentAfter (onChatMessage env processedMessages) a)
        = storedAt env)
  \/ agentAfter (onChatMessage env processedMessages) a = a.
Proof.
  destruct (isDecisionQuestion (userQuestionOf processedMessages)) eqn:Hq.
  - destruct (debate_outcomes env processedMessages a Hq)
      as [(text & d & rs & s & _ & _ & Hr & _ & _ & Hi & Hl)
         |[(_ & H & _)|(text & d & rs & _ & _ & _ & _ & H & _)]]; auto.
    left. by exists text, d, rs, s.
  - right. unfold agentAfter. by rewrite onChatMessage_chat.
Qed.

(** X9: a turn changes the stored incidents by appending at most one
    record at the end, whatever the question and whatever the services
    do: no stored record is removed, changed or moved. An appended
    record has the generated id, the question, status open, a summary
    and at most three reasoning entries; when nothing is appended the
    agent is as it was. *)
Theorem turn_appends_at_most_one
    (env : Services) (processedMessages : list Message.t) (a : Agent) :
  let q := userQuestionOf processedMessages in
  let a' := agentAfter (onChatMessage env processedMessages) a in
  exists added,
    incidentsOf a' = incidentsOf a ++ added
    /\ length added <= 1
    /\ (forall r, r ∈ added ->
          IncidentMemory.id r = generateId env
          /\ IncidentMemory.question r = q
          /\ IncidentMemory.status r = open
          /\ IncidentMemory.timestamp r = createdAt env
          /\ is_Some (IncidentMemory.summary r)
          /\ length (IncidentMemory.reasoning r) <= 3
          /\ lastUpdatedOf a' = storedAt env
          /\ isDecisionQuestion q = true)
    /\ (added = [] -> a' = a).
Proof.
  intros q a'. subst q a'.
  destruct (turn_effect env processedMessages a)
    as [(text & d & rs & s & Hq & Hr & Hi & Hl)|H].
  - eexists. split; [exact Hi|]. split; [cbn; lia|]. split; [|done].
    intros r Hin. apply list_elem_of_singleton in Hin as ->. cbn.
    repeat split; try done. by apply (reasoning_at_most_three text).
  - exists []. rewrite H, app_nil_r. split; [done|]. split; [cbn; lia|].
    split; [|done]. intros r Hin. by apply elem_of_nil in Hin.
Qed.

Lemma turn_appends_at_most_one_witness :
  exists added,
    incidentsOf (agentAfter (onChatMessage sampleServices sampleMessages)
                   (agentWith [sampleIncident "a" 10] 7))
    = incidentsOf (agentWith [sampleIncident "a" 10] 7) ++ added
    /\ length added <= 1.
Proof.
  destruct (turn_appends_at_most_one sampleServices sampleMessages
              (agentWith [sampleIncident "a" 10] 7))
    as (added & Hi & Hl & _).
  exists added. split; [exact Hi|exact Hl].
Defined.

(** X10: storing and deleting round-trip. After a turn, deleting the
    generated id leaves the stored sequence as it was before the turn
    without the records that already had that id; when the id was fresh,
    exactly the sequence from before the turn. *)
Theorem store_then_delete
    (env : Services) (processedMessages : list Message.t) (a : Agent)
    (now : instant) :
  let stored := agentAfter (onChatMessage env processedMessages) a in
  let removed := agentAfter (deleteIncident now (generateId env)) stored in
  incidentsOf removed = others (generateId env) (incidentsOf a)
  /\ ((generateId env ∉ ids (incidentsOf a)) ->
      incidentsOf removed = incidentsOf a).
Proof.
  intros stored removed. subst stored removed.
  destruct (deleteIncident_effect
              (agentAfter (onChatMessage env processedMessages) a)
              now (generateId env)) as (_ & E & _).
  rewrite E. clear E.
  assert (others (generateId env)
            (incidentsOf (agentAfter (onChatMessage env processedMessages) a))
          = others (generateId env) (incidentsOf a)) as E.
  { destruct (turn_effect env processedMessages a)
      as [(text & d & rs & s & _ & _ & Hi & _)|H]; [|by rewrite H].
    rewrite Hi, others_app. unfold others at 2. cbn [List.filter].
    unfold sameId. cbn [IncidentMemory.id IncidentMemory.setSummary draftOf].
    rewrite bool_decide_eq_true_2 by done. apply app_nil_r. }
  rewrite E. split; [done|]. intros Hfresh. apply filter_absent.
  intros i Hi Hid. apply Hfresh. unfold ids.
  apply list_elem_of_In, in_map_iff. exists i.
  split; [done|by apply list_elem_of_In].
Qed.

Lemma store_then_delete_witness :
  incidentsOf (agentAfter (deleteIncident 9 (generateId sampleServices))
                 (agentAfter (onChatMessage sampleServices sampleMessages)
                    (agentWith [sampleIncident "a" 10] 7)))
  = [sampleIncident "a" 10].
Proof.
  apply (store_then_delete sampleServices sampleMessages
           (agentWith [sampleIncident "a" 10] 7) 9%Z).
  intros H. vm_compute in H.
  apply elem_of_cons in H as [H|H]; [discriminate|].
  by apply elem_of_nil in H.
Defined.

(** X11: the ids of the stored records stay pairwise different under
    deletion and under a search without query; under a turn they stay
    so when the generated id is fresh, and a turn that stores a record
    under an id already present breaks it: the code does not check the
    id. *)
Theorem ids_stay_unique
    (env : Services) (processedMessages : list Message.t) (a : Agent) :
  NoDup (ids (incidentsOf a)) ->
  (forall (now : instant) id,
     NoDup (ids (incidentsOf (agentAfter (deleteIncident now id) a))))
  /\ NoDup (ids (incidentsOf (agentAfter (getIncidents None) a)))
  /\ ((generateId env ∉ ids (incidentsOf a)) ->
      NoDup (ids (incidentsOf
                    (agentAfter (onChatMessage env processedMessages) a))))
  /\ (generateId env ∈ ids (incidentsOf a) ->
      agentAfter (onChatMessage env processedMessages) a <> a ->
      ~ NoDup (ids (incidentsOf
                      (agentAfter (onChatMessage env processedMessages) a)))).
Proof.
  intros Hu. split; [|split; [|split]].
  - intros now id. destruct (deleteIncident_effect a now id) as (_ & E & _).
    rewrite E. by apply others_NoDup.
  - destruct (getIncidents_sorts_state_in_place a) as [E _]. rewrite E.
    unfold ids in *.
    by rewrite (Permutation_map IncidentMemory.id
                  (sortNewestFirst_perm (incidentsOf a))).
  - intros Hfresh.
    destruct (turn_effect env processedMessages a)
      as [(text & d & rs & s & _ & _ & Hi & _)|H]; [|by rewrite H].
    rewrite Hi. unfold ids. rewrite map_app. cbn.
    apply NoDup_app. split; [exact Hu|]. split; [|apply NoDup_singleton].
    intros x Hx Hin. apply list_elem_of_singleton in Hin as ->. by apply Hfresh.
  - intros Hold Hchanged.
    destruct (turn_effect env processedMessages a)
      as [(text & d & rs & s & _ & _ & Hi & _)|H]; [|done].
    rewrite Hi. unfold ids. rewrite map_app. cbn. intros Hn.
    apply NoDup_app in Hn as (_ & Hn & _). apply (Hn _ Hold).
    by apply list_elem_of_singleton.
Qed.

Lemma ids_stay_unique_witness :
  NoDup (ids (incidentsOf
                (agentAfter (onChatMessage sampleServices sampleMessages)
                   (agentWith [sampleIncident "a" 10] 7)))).
Proof.
  apply (ids_stay_unique sampleServices sampleMessages
           (agentWith [sampleIncident "a" 10] 7)).
  - vm_compute. apply NoDup_singleton.
  - intros H. vm_compute in H.
    apply elem_of_cons in H as [H|H]; [discriminate|].
    by apply elem_of_nil in H.
Defined.

(** ** What a turn logs *)

Section TurnLogs.

Variables (env : Services) (q : JsString.t).

Ltac refute_elem H :=
  repeat (apply elem_of_cons in H as [H|H];
          [first [discriminate H
                 |injection H as H; vm_compute in H; discriminate H]|]);
  try (by apply elem_of_nil in H).

Lemma perspectiveEvents_error r r' :
  ErrorLogged (perspectiveError r) ∈ perspectiveEvents env r' q <->
  r = r' /\ getPerspective env r q = Thrown.
Proof.
  unfold perspectiveEvents. split.
  - intros H. destruct (getPerspective env r' q) eqn:E; cbn in H.
    + refute_elem H.
    + destruct r, r'; first [by split|refute_elem H].
  - intros [<- H]. rewrite H. cbn. do 2 right. left.
Qed.

Lemma foreground_error r :
  ErrorLogged (perspectiveError r) ∈ foreground env q <->
  getPerspective env r q = Thrown.
Proof.
  unfold foreground. rewrite !elem_of_app, !perspectiveEvents_error. split.
  - intros [[_ H]|[[_ H]|[[_ H]|H]]]; try done. refute_elem H.
  - intros H. destruct r; auto.
Qed.

Lemma foreground_quiet : storingFailed ∉ foreground env q.
Proof.
  unfold foreground, perspectiveEvents, storingFailed. intros H.
  destruct (getPerspective env ReliabilityAgent q),
    (getPerspective env CostAgent q), (getPerspective env UXAgent q);
    cbn in H; refute_elem H.
Qed.

End TurnLogs.

(** X12: a turn always returns, whatever the three agents, the synthesis
    and the summary do. On a decision question it answers with the
    synthesis; the error of a role is logged exactly when that role's
    call failed; and the storing error is logged exactly when the turn
    made no state update. Otherwise it answers with the plain chat,
    calls no agent and leaves the agent as it was. *)
Theorem turn_always_returns
    (env : Services) (processedMessages : list Message.t) (a : Agent) :
  let q := userQuestionOf processedMessages in
  let turn := onChatMessage env processedMessages in
  (isDecisionQuestion q = true ->
   resultOf turn a = Returned (Debate (contentOf env q))
   /\ (forall r, ErrorLogged (perspectiveError r) ∈ traceOf turn a <->
                 getPerspective env r q = Thrown)
   /\ (storingFailed ∈ traceOf turn a <-> stateUpdates (traceOf turn a) = []))
  /\ (isDecisionQuestion q = false ->
      resultOf turn a = Returned Chat
      /\ traceOf turn a = [ChatRequested; StreamMerged]
      /\ agentAfter turn a = a).
Proof.
  intros q turn. subst q turn. split.
  - intros Hq. split; [by apply debate_result|].
    pose proof (stateUpdates_foreground env processedMessages) as Hfg.
    pose proof (foreground_quiet env (userQuestionOf processedMessages)) as Hn.
    destruct (debate_outcomes env processedMessages a Hq)
      as [(text & d & rs & s & _ & _ & _ & _ & Ht & _)
         |[(_ & _ & Ht)|(text & d & rs & _ & _ & _ & _ & _ & Ht)]];
      rewrite Ht; split.
    + intros r. rewrite elem_of_app, foreground_error. split; [|auto].
      intros [H|H]; [done|].
      apply elem_of_cons in H as [H|H]; [discriminate H|].
      apply elem_of_cons in H as [H|H]; [discriminate H|].
      by apply elem_of_nil in H.
    + rewrite stateUpdates_app, Hfg. split; [|discriminate].
      intros H. apply elem_of_app in H as [H|H]; [done|].
      apply elem_of_cons in H as [H|H]; [discriminate H|].
      apply elem_of_cons in H as [H|H]; [discriminate H|].
      by apply elem_of_nil in H.
    + intros r. rewrite elem_of_app, foreground_error. split; [|auto].
      intros [H|H]; [done|].
      apply list_elem_of_singleton in H. injection H as H.
      destruct r; vm_compute in H; discriminate H.
    + rewrite stateUpdates_app, Hfg. split; [done|].
      intros _. apply elem_of_app. right. by left.
    + intros r. rewrite elem_of_app, foreground_error. split; [|auto].
      intros [H|H]; [done|].
      apply elem_of_cons in H as [H|H]; [discriminate H|].
      apply list_elem_of_singleton in H. injection H as H.
      destruct r; vm_compute in H; discriminate H.
    + rewrite stateUpdates_app, Hfg. split; [done|].
      intros _. apply elem_of_app. right. right. by left.
  - intros Hq. unfold resultOf, traceOf, agentAfter.
    by rewrite onChatMessage_chat.
Qed.

Lemma turn_always_returns_witness :
  resultOf (onChatMessage (without UXAgent (without CostAgent
              (without ReliabilityAgent sampleServices))) sampleMessages)
    (newAgent 5)
  = Returned (Debate (synthesisContent sampleQuestion
                        (unavailable ReliabilityAgent) (unavailable CostAgent)
                        (unavailable UXAgent))).
Proof.
  exact (proj1 (proj1 (turn_always_returns
           (without UXAgent (without CostAgent
              (without ReliabilityAgent sampleServices)))
           sampleMessages (newAgent 5)) eq_refl)).
Defined.

(** ** The question of a turn *)

Lemma find_first_text (before after : list Part.t) (p : Part.t) :
  (forall x, x ∈ before -> Part.type x <> str "text") ->
  Part.type p = str "text" ->
  List.find (fun p => sameId (Part.type p) (str "text")) (before ++ p :: after)
  = Some p.
Proof.
  intros Hb Hp. induction before as [|x before IH]; cbn [app List.find].
  - unfold sameId. by rewrite bool_decide_eq_true_2.
  - unfold sameId at 1. rewrite bool_decide_eq_false_2 by (apply Hb; by left).
    apply IH. intros y Hy. apply Hb. by right.
Qed.

(** X13: the question of a turn is the text of the first part of type
    "text" in the last message. Earlier messages and later parts do not
    count: when that part has no text the question is empty, even if a
    later text part has one. *)
Theorem userQuestion_reads_first_text_part
    (history : list Message.t) (before after : list Part.t) (p : Part.t) :
  (forall x, x ∈ before -> Part.type x <> str "text") ->
  Part.type p = str "text" ->
  userQuestionOf (history ++ [Message.make (Some (before ++ p :: after))])
  = default [] (Part.text p).
Proof.
  intros Hb Hp. unfold userQuestionOf. rewrite last_snoc. cbn.
  by rewrite find_first_text.
Qed.

Lemma userQuestion_reads_first_text_part_witness :
  userQuestionOf
    ([ Message.make (Some [ Part.make (str "text") (Some (str "Should we deploy?")) ]) ]
     ++ [ Message.make
            (Some ([ Part.make (str "step-start") None ]
                   ++ Part.make (str "text") None
                   :: [ Part.make (str "text") (Some (str "Should we deploy?")) ])) ])
  = [].
Proof.
  apply (userQuestion_reads_first_text_part _ [ Part.make (str "step-start") None ]).
  - intros x Hx. apply list_elem_of_singleton in Hx as ->. discriminate.
  - reflexivity.
Defined.

(** X14: a keyword anywhere decides: a text that is classified as a
    decision question stays one when any text is put before or after
    it, so a keyword inside a longer word or message counts. *)
Theorem isDecisionQuestion_extends (pre text post : JsString.t) :
  isDecisionQuestion text = true ->
  isDecisionQuestion (pre ++ text ++ post) = true.
Proof.
  unfold isDecisionQuestion. rewrite !existsb_exists.
  intros (keyword & Hin & H). exists keyword. split; [exact Hin|].
  apply includes_inv in H as (p1 & p2 & H).
  rewrite !toLowerCase_app, H.
  replace (toLowerCase pre ++ (p1 ++ keyword ++ p2) ++ toLowerCase post)
    with ((toLowerCase pre ++ p1) ++ keyword ++ (p2 ++ toLowerCase post))
    by (by rewrite <- !app_assoc).
  apply includes_intro.
Qed.

Lemma isDecisionQuestion_extends_witness :
  isDecisionQuestion (str "The re" ++ str "deploy" ++ str "ment went fine.")
  = true.
Proof.
  apply (isDecisionQuestion_extends (str "The re") (str "deploy")
           (str "ment went fine.")).
  reflexivity.
Defined.

(** ** The delete-incident requests *)

Section Handlers.

Variables (base : Base) (now : instant) (request : Request.t) (a : Agent).

Hypothesis routed : isDeleteIncident request = true.

(** X15: a POST with action delete-incident whose JSON body is an object
    with a non-empty string [id] is answered 200 with
    [{success: true, deletedId: id}] by [fetch] and by [onRequest]
    alike, whether or not a record has that id; the store then holds the
    old sequence without the records of that id and [lastUpdated] is the
    current instant. *)
Theorem delete_request_accepted (id : JsString.t) :
  requestedId request = Some id -> id <> [] ->
  let answer :=
    Response.make 200
      (JsonBody (JObject [ (str "success", JBool true);
                           (str "deletedId", JString id) ])) in
  resultOf (fetch base now request) a = Returned answer
  /\ resultOf (onRequest base now request) a = Returned answer
  /\ agentAfter (fetch base now request) a
     = agentAfter (onRequest base now request) a
  /\ incidentsOf (agentAfter (fetch base now request) a)
     = others id (incidentsOf a)
  /\ lastUpdatedOf (agentAfter (fetch base now request) a) = now
  /\ traceOf (fetch base now request) a
     = [StateSet (others id (incidentsOf a)) now].
Proof.
  intros Hid Hne answer. subst answer.
  assert (truthy id = true) as Ht by (by destruct id).
  destruct (deleteIncident_effect a now id) as (Hr & Hi & Hl & Htr).
  unfold resultOf, agentAfter, traceOf, call, fetch, onRequest in *.
  rewrite routed. unfold tryCatch, bindM, ret. rewrite Hid, Ht.
  destruct (deleteIncident now id {| self := a; trace := [] |}) as [r w] eqn:E.
  cbn [fst snd] in *. subst r. cbn. repeat split; done.
Qed.

(** X16: a POST with action delete-incident whose body is not JSON, is
    not an object, has no [id], has an [id] that is not a string, or has
    the empty string as [id], is answered 400 "Missing incident id" by
    both handlers; the agent is left as it was and nothing is logged. *)
Theorem delete_request_rejected :
  (forall id, requestedId request = Some id -> id = []) ->
  resultOf (fetch base now request) a
    = Returned (failure 400 (str "Missing incident id"))
  /\ resultOf (onRequest base now request) a
     = Returned (failure 400 (str "Missing incident id"))
  /\ agentAfter (fetch base now request) a = a
  /\ agentAfter (onRequest base now request) a = a
  /\ traceOf (fetch base now request) a = []
  /\ traceOf (onRequest base now request) a = [].
Proof.
  intros H.
  unfold resultOf, agentAfter, traceOf, call, fetch, onRequest.
  rewrite routed. unfold tryCatch, bindM, ret.
  destruct (requestedId request) as [id|]; [|repeat split; done].
  rewrite (H id eq_refl). repeat split; done.
Qed.

End Handlers.

(** An id is read only from a JSON object whose last [id] member is a
    string. *)
Lemma requestedId_object (request : Request.t) (id : JsString.t) :
  requestedId request = Some id <->
  exists members,
    Request.json request = Returned (JObject members)
    /\ snd <$> last (filter (fun kv => kv.1 = str "id") members)
       = Some (JString id).
Proof.
  unfold requestedId. split.
  - destruct (Request.json request) as [[| | | | |members]|]; cbn; try done.
    intros H. exists members. split; [done|].
    destruct (snd <$> last _) as [[| | |s| |]|]; try done. by injection H as ->.
  - intros (members & -> & H). cbn. by rewrite H.
Qed.

Lemma delete_request_accepted_witness :
  incidentsOf
    (agentAfter
       (fetch silentBase 9
          (deleteRequest
             (Returned (JObject [ (str "id", JNumber 1);
                                  (str "id", JString (str "a")) ]))))
       (agentWith [sampleIncident "a" 10; sampleIncident "b" 20] 7))
  = [sampleIncident "b" 20].
Proof.
  apply (delete_request_accepted silentBase 9%Z
           (deleteRequest
              (Returned (JObject [ (str "id", JNumber 1);
                                   (str "id", JString (str "a")) ])))
           (agentWith [sampleIncident "a" 10; sampleIncident "b" 20] 7)
           eq_refl (str "a") eq_refl).
  discriminate.
Defined.

Lemma delete_request_rejected_witness :
  resultOf (fetch silentBase 9
              (deleteRequest (Returned (JObject [ (str "id", JString []) ]))))
    (newAgent 5)
  = Returned (failure 400 (str "Missing incident id"))
  /\ resultOf (onRequest silentBase 9 (deleteRequest Thrown)) (newAgent 5)
     = Returned (failure 400 (str "Missing incident id"))
  /\ agentAfter
       (fetch silentBase 9
          (deleteRequest (Returned (JObject [ (str "id", JNumber 7) ]))))
       (newAgent 5)
     = newAgent 5.
Proof.
  split; [|split].
  - apply (delete_request_rejected silentBase 9%Z
             (deleteRequest (Returned (JObject [ (str "id", JString []) ])))
             (newAgent 5) eq_refl).
    intros id H. by injection H as <-.
  - apply (delete_request_rejected silentBase 9%Z (deleteRequest Thrown)
             (newAgent 5) eq_refl).
    intros id H. discriminate H.
  - apply (delete_request_rejected silentBase 9%Z
             (deleteRequest (Returned (JObject [ (str "id", JNumber 7) ])))
             (newAgent 5) eq_refl).
    intros id H. discriminate H.
Defined.

(** ** A search followed by a turn *)

(** X17: a turn after a search without query appends to the sequence as
    the search left it: the stored incidents are the earlier ones newest
    first, followed by at most one new record, and the state update the
    turn makes writes that sequence. *)
Theorem search_then_store
    (env : Services) (processedMessages : list Message.t) (a : Agent) :
  let searched := agentAfter (getIncidents None) a in
  let turn := onChatMessage env processedMessages in
  exists added,
    incidentsOf (agentAfter turn searched)
    = sortNewestFirst (incidentsOf a) ++ added
    /\ length added <= 1
    /\ (added <> [] ->
        stateUpdates (traceOf turn searched)
        = [ (sortNewestFirst (incidentsOf a) ++ added, storedAt env) ]).
Proof.
  intros searched turn. subst searched turn.
  destruct (getIncidents_sorts_state_in_place a) as [Hs _].
  destruct (isDecisionQuestion (userQuestionOf processedMessages)) eqn:Hq.
  - pose proof (stateUpdates_foreground env processedMessages) as Hfg.
    destruct (debate_outcomes env processedMessages
                (agentAfter (getIncidents None) a) Hq)
      as [(text & d & rs & s & _ & _ & _ & _ & Ht & Hi & _)
         |[(_ & H & _)|(text & d & rs & _ & _ & _ & _ & H & _)]].
    + eexists. rewrite Hi, Hs. split; [reflexivity|]. split; [cbn; lia|].
      intros _. rewrite Ht, stateUpdates_app, Hfg, Hs. reflexivity.
    + exists []. rewrite H, Hs, app_nil_r. split; [done|]. split; [cbn; lia|done].
    + exists []. rewrite H, Hs, app_nil_r. split; [done|]. split; [cbn; lia|done].
  - exists []. unfold agentAfter at 1. rewrite onChatMessage_chat by done.
    cbn [snd self]. fold (agentAfter (getIncidents None) a).
    rewrite Hs, app_nil_r. split; [done|]. split; [cbn; lia|done].
Qed.

Lemma search_then_store_witness :
  exists added,
    incidentsOf
      (agentAfter (onChatMessage sampleServices sampleMessages)
         (agentAfter (getIncidents None)
            (agentWith [sampleIncident "a" 10; sampleIncident "b" 20] 7)))
    = [sampleIncident "b" 20; sampleIncident "a" 10] ++ added
    /\ length added <= 1.
Proof.
  destruct (search_then_store sampleServices sampleMessages
              (agentWith [sampleIncident "a" 10; sampleIncident "b" 20] 7))
    as (added & Hi & Hl & _).
  exists added. split; [exact Hi|exact Hl].
Defined.
